(** * VlogSphere backend: the content-analysis service (services/aiService)

    A shallow embedding of the four functions of the auto-tagging module
    ([generateTags], [suggestCategories], [analyzeSentiment],
    [extractKeyPhrases]) together with the fragment of JavaScript they run
    on: strings, regular-expression replacements and splits, objects used as
    insertion-ordered dictionaries (with the properties they inherit from
    [Object.prototype]), [Array.prototype.sort] as V8 runs it, [slice],
    [Set], exceptions and the [try]/[catch] of an [async] function.

    Strings are [String.string]; a character is a code point in
    U+0000..U+00FF and [String.length] is the JavaScript [length].  The
    numeric arguments [maxTags] and [maxPhrases] are integers ([Z]): the
    functions hand them to [slice] unchecked, and [slice] reads a negative
    end index from the end of the array.

    The [natural] package is not part of the repository.  Its stopword list
    is a parameter of the functions that read it, its sentiment analyzer is a
    parameter of [analyzeSentiment], and its word tokenizer is modelled. *)

From Stdlib Require Import String Ascii List ZArith Lia Bool Arith.
From Stdlib Require Import Permutation Sorted QArith.
Import ListNotations.
Close Scope Q_scope.
Open Scope nat_scope.
Open Scope string_scope.

(* ===================================================================== *)
(** ** JavaScript strings *)
(* ===================================================================== *)

Module JsString.

Definition code (c : ascii) : nat := nat_of_ascii c.

Definition between (lo hi : nat) (c : ascii) : bool :=
  Nat.leb lo (code c) && Nat.leb (code c) hi.

Definition is_digit (c : ascii) : bool := between 48 57 c.
Definition is_upper (c : ascii) : bool := between 65 90 c.
Definition is_lower (c : ascii) : bool := between 97 122 c.

(** The class [\w]: [A-Za-z0-9_]. *)
Definition is_word (c : ascii) : bool :=
  is_digit c || is_upper c || is_lower c || Nat.eqb (code c) 95.

(** The class [\s] below U+0100: TAB, LF, VT, FF, CR, SP and NBSP.  These are
    also the characters [trim] strips. *)
Definition is_space (c : ascii) : bool :=
  between 9 13 c || Nat.eqb (code c) 32 || Nat.eqb (code c) 160.

(** The class [[.!?]]. *)
Definition is_terminator (c : ascii) : bool :=
  Nat.eqb (code c) 46 || Nat.eqb (code c) 33 || Nat.eqb (code c) 63.

(** [toLowerCase] on one character: A-Z, and the Latin-1 capitals
    U+00C0..U+00DE except the multiplication sign U+00D7. *)
Definition lower_char (c : ascii) : ascii :=
  if is_upper c || (between 192 222 c && negb (Nat.eqb (code c) 215))
  then ascii_of_nat (code c + 32)
  else c.

Fixpoint map_chars (f : ascii -> ascii) (s : string) : string :=
  match s with
  | EmptyString => EmptyString
  | String c s' => String (f c) (map_chars f s')
  end.

Fixpoint filter_chars (p : ascii -> bool) (s : string) : string :=
  match s with
  | EmptyString => EmptyString
  | String c s' => if p c then String c (filter_chars p s') else filter_chars p s'
  end.

Fixpoint all_chars (p : ascii -> bool) (s : string) : bool :=
  match s with
  | EmptyString => true
  | String c s' => p c && all_chars p s'
  end.

Definition toLowerCase (s : string) : string := map_chars lower_char s.

(** [s.startsWith(t)]. *)
Fixpoint startsWith (s t : string) {struct t} : bool :=
  match t with
  | EmptyString => true
  | String b t' =>
      match s with
      | EmptyString => false
      | String a s' => Ascii.eqb a b && startsWith s' t'
      end
  end.

(** [s.includes(t)]: [t] occurs in [s] as a contiguous substring. *)
Fixpoint includes (s t : string) : bool :=
  startsWith s t ||
  match s with
  | EmptyString => false
  | String _ s' => includes s' t
  end.

(** [s.replace(/[^\w\s]/g, ' ')]. *)
Definition replace_punct_space (s : string) : string :=
  map_chars (fun c => if is_word c || is_space c then c else " "%char) s.

(** [s.replace(/[^\w\s]/g, '')]. *)
Definition remove_punct (s : string) : string :=
  filter_chars (fun c => is_word c || is_space c) s.

(** [s.replace(/\s+/g, ' ')]: [in_run] tells that the previous character was
    whitespace, whose run has already been replaced. *)
Fixpoint collapse_ws (in_run : bool) (s : string) : string :=
  match s with
  | EmptyString => EmptyString
  | String c s' =>
      if is_space c
      then if in_run then collapse_ws true s'
           else String " "%char (collapse_ws true s')
      else String c (collapse_ws false s')
  end.

Definition replace_ws_space (s : string) : string := collapse_ws false s.

Fixpoint trimStart (s : string) : string :=
  match s with
  | EmptyString => EmptyString
  | String c s' => if is_space c then trimStart s' else s
  end.

Fixpoint trimEnd (s : string) : string :=
  match s with
  | EmptyString => EmptyString
  | String c s' =>
      match trimEnd s' with
      | EmptyString => if is_space c then EmptyString else String c EmptyString
      | r => String c r
      end
  end.

Definition trim (s : string) : string := trimEnd (trimStart s).

(** [s.split(/[sep]+/)] for a character class [sep]: the pieces between the
    maximal runs of separator characters.  A leading or trailing run leaves an
    empty piece, and the empty string splits into one empty piece.
    [in_run] tells that the previous character was a separator. *)
Fixpoint split_runs (sep : ascii -> bool) (in_run : bool) (s : string) : list string :=
  match s with
  | EmptyString => [EmptyString]
  | String c s' =>
      if sep c
      then if in_run then split_runs sep true s'
           else EmptyString :: split_runs sep true s'
      else match split_runs sep false s' with
           | p :: ps => String c p :: ps
           | [] => [String c EmptyString]
           end
  end.

Definition split (sep : ascii -> bool) (s : string) : list string :=
  split_runs sep false s.

(** [arr.join(sep)]. *)
Definition join (sep : string) (arr : list string) : string := String.concat sep arr.

(** [arr.includes(x)] on an array of strings. *)
Definition arr_includes (arr : list string) (x : string) : bool :=
  existsb (String.eqb x) arr.

(** [/^[\d]+$/.test(s)]. *)
Definition all_digits (s : string) : bool :=
  negb (s =? EmptyString) && all_chars is_digit s.

End JsString.

Import JsString.

(* ===================================================================== *)
(** ** JavaScript values, exceptions, objects and arrays *)
(* ===================================================================== *)

Module Js.

(** The values the service meets.  [VFun name] is a built-in function object
    (its source text is [function name() { [native code] }]); [VObj] is a plain
    object without own properties, such as [Object.prototype] itself;
    [VArr] is an array of strings. *)
Inductive value : Type :=
| VUndefined
| VNull
| VBool (b : bool)
| VNum (n : Z)
| VNaN
| VStr (s : string)
| VFun (name : string)
| VObj
| VArr (elems : list string).

Inductive error : Type :=
| TypeError (msg : string).

(** The completion of an evaluation: a value, or a thrown exception. *)
Inductive completion (A : Type) : Type :=
| Normal (a : A)
| Throw (e : error).
Arguments Normal {A} a.
Arguments Throw {A} e.

Definition bind {A B : Type} (m : completion A) (k : A -> completion B) : completion B :=
  match m with
  | Normal a => k a
  | Throw e => Throw e
  end.

Notation "x <- m ;; k" := (bind m (fun x => k))
  (at level 61, m at next level, right associativity).

(** The settled state of the promise an [async] function returns. *)
Inductive promise (A : Type) : Type :=
| Fulfilled (a : A)
| Rejected (e : error).
Arguments Fulfilled {A} a.
Arguments Rejected {A} e.

(** [async (..) => { try { body } catch (error) { console.error(..); return dflt; } }]:
    the whole body is inside the [try], and the handler returns [dflt]. *)
Definition async_try_catch {A : Type} (body : completion A) (dflt : A) : promise A :=
  match body with
  | Normal a => Fulfilled a
  | Throw _ => Fulfilled dflt
  end.

(** [typeof v === 'string']. *)
Definition is_string (v : value) : bool :=
  match v with VStr _ => true | _ => false end.

(** ToBoolean. *)
Definition truthy (v : value) : bool :=
  match v with
  | VUndefined | VNull | VNaN => false
  | VBool b => b
  | VNum n => negb (n =? 0)%Z
  | VStr s => negb (s =? EmptyString)
  | VFun _ | VObj | VArr _ => true
  end.

(** [a || b]. *)
Definition or_else (a b : value) : value := if truthy a then a else b.

(** ToString of the values that are not strings already, as far as the
    service needs it: numbers are only ever added to numbers here. *)
Definition source_text (v : value) : string :=
  match v with
  | VStr s => s
  | VFun name => "function " ++ name ++ "() { [native code] }"
  | VObj => "[object Object]"
  | VArr elems => join "," elems
  | _ => EmptyString
  end.

(** [v + 1]: numeric addition on a number, string concatenation as soon as
    ToPrimitive of [v] is a string (strings, functions, objects, arrays). *)
Definition add_one (v : value) : value :=
  match v with
  | VNum n => VNum (n + 1)
  | VNull => VNum 1
  | VBool b => VNum (if b then 2 else 1)
  | VUndefined | VNaN => VNaN
  | VStr _ | VFun _ | VObj | VArr _ => VStr (source_text v ++ "1")
  end.

(** ToNumber.  A string of digits is its number and the empty string is 0;
    every other string the service can build starts with the source text of
    a function or object and is no numeric literal. *)
Fixpoint digits_value (acc : Z) (s : string) : Z :=
  match s with
  | EmptyString => acc
  | String c s' => digits_value (10 * acc + Z.of_nat (code c - 48)) s'
  end.

Definition string_to_number (s : string) : option Z :=
  if all_chars is_digit s then Some (digits_value 0 s) else None.

Definition to_number (v : value) : option Z :=
  match v with
  | VNum n => Some n
  | VNull => Some 0%Z
  | VBool b => Some (if b then 1 else 0)%Z
  | VUndefined | VNaN => None
  | VStr _ | VFun _ | VObj | VArr _ => string_to_number (source_text v)
  end.

(** [b - a] as the comparator [([,a], [,b]) => b - a] computes it, read
    through SortCompare: a NaN result counts as +0. *)
Definition compare_desc (a b : value) : Z :=
  match to_number b, to_number a with
  | Some nb, Some na => nb - na
  | _, _ => 0
  end.

(** *** Objects used as dictionaries

    An object literal [{}] filled by assignments: its own properties in
    creation order, and [Object.prototype] behind it. *)
Definition object : Type := list (string * value).

(** The properties every plain object inherits. *)
Definition Object_prototype : list (string * value) :=
  [ ("constructor", VFun "Object");
    ("__defineGetter__", VFun "__defineGetter__");
    ("__defineSetter__", VFun "__defineSetter__");
    ("hasOwnProperty", VFun "hasOwnProperty");
    ("__lookupGetter__", VFun "__lookupGetter__");
    ("__lookupSetter__", VFun "__lookupSetter__");
    ("isPrototypeOf", VFun "isPrototypeOf");
    ("propertyIsEnumerable", VFun "propertyIsEnumerable");
    ("toString", VFun "toString");
    ("valueOf", VFun "valueOf");
    ("__proto__", VObj);
    ("toLocaleString", VFun "toLocaleString") ].

Fixpoint assoc {V : Type} (k : string) (l : list (string * V)) : option V :=
  match l with
  | [] => None
  | (k', v) :: l' => if k =? k' then Some v else assoc k l'
  end.

(** [o[k]]: the own property, else the inherited one, else [undefined]. *)
Definition get (o : object) (k : string) : value :=
  match assoc k o with
  | Some v => v
  | None =>
      match assoc k Object_prototype with
      | Some v => v
      | None => VUndefined
      end
  end.

Fixpoint update (o : object) (k : string) (v : value) : object :=
  match o with
  | [] => [(k, v)]
  | (k', v') :: o' => if k =? k' then (k', v) :: o' else (k', v') :: update o' k v
  end.

(** [o[k] = v]: an own property keeps its place, a new one goes last.  The
    key [__proto__] is the inherited setter, which ignores every value that
    is neither an object nor null and never creates an own property (the
    service only stores numbers and strings). *)
Definition set (o : object) (k : string) (v : value) : object :=
  if k =? "__proto__" then o else update o k v.

(** An array index as a property key: the canonical decimal form of an
    integer below 2^32 - 1. *)
Definition is_array_index (k : string) : bool :=
  all_digits k
  && (negb (startsWith k "0") || (k =? "0"))
  && (digits_value 0 k <? 4294967295)%Z.

Fixpoint insert_index {V : Type} (e : string * V) (l : list (string * V)) : list (string * V) :=
  match l with
  | [] => [e]
  | e' :: l' =>
      if (digits_value 0 (fst e) <? digits_value 0 (fst e'))%Z
      then e :: e' :: l'
      else e' :: insert_index e l'
  end.

(** [Object.entries(o)]: the array-index keys in ascending numeric order,
    then the other keys in creation order. *)
Definition entries {V : Type} (o : list (string * V)) : list (string * V) :=
  fold_right insert_index [] (filter (fun e => is_array_index (fst e)) o)
  ++ filter (fun e => negb (is_array_index (fst e))) o.

(** *** Arrays *)

Section Sort.
Context {A : Type}.

(** [cmp x y] is the number SortCompare gets for [x] and [y]: the result of
    the comparator, a NaN counted as [+0]. *)
Variable cmp : A -> A -> Z.

(** [arr.sort(cmp)] as V8 runs it since version 7.0 (the README asks for
    Node.js 16+), on the work array it copies the elements to.  An array of
    fewer than 64 elements is a single run of its TimSort: [CountAndMakeRun]
    finds the run at the front of the array, and [BinaryInsertionSort] puts
    every further element in its place. *)

(** The loop of [CountAndMakeRun]: how many elements after [previous]
    continue the run.  A run goes on while the order is not negative, a
    descending one while it is negative. *)
Fixpoint run_rest (descending : bool) (previous : A) (rest : list A) : nat :=
  match rest with
  | [] => 0
  | current :: rest' =>
      let order := cmp current previous in
      if (if descending then (0 <=? order)%Z else (order <? 0)%Z) then 0
      else S (run_rest descending current rest')
  end.

(** [CountAndMakeRun(0, length)]: the length of the first run, and the array
    with that run reversed when it is a descending one. *)
Definition count_and_make_run (arr : list A) : list A * nat :=
  match arr with
  | first :: second :: rest =>
      let descending := (cmp second first <? 0)%Z in
      let runLength := 2 + run_rest descending second rest in
      if descending
      then ((rev (firstn runLength arr) ++ skipn runLength arr)%list, runLength)
      else (arr, runLength)
  | _ => (arr, length arr)
  end.

(** The binary search of [BinaryInsertionSort] on the part of the array
    between [left] and [right]: the number of its elements that stay before
    [pivot].  The middle is at [(right - left) >> 1]; a negative order
    continues on the left of it, any other order on the right.  [steps]
    counts the turns of the loop down; the length of the part is enough. *)
Fixpoint insertion_point (steps : nat) (pivot : A) (part : list A) : nat :=
  match steps, part with
  | S steps', _ :: _ =>
      let middle := Nat.div2 (length part) in
      if (cmp pivot (nth middle part pivot) <? 0)%Z
      then insertion_point steps' pivot (firstn middle part)
      else S middle + insertion_point steps' pivot (skipn (S middle) part)
  | _, _ => 0
  end.

(** [BinaryInsertionSort]: [sorted] is the array up to [start], [rest] the
    elements from [start] on; each of them is moved to the index the binary
    search gives. *)
Fixpoint binary_insertion (sorted rest : list A) : list A :=
  match rest with
  | [] => sorted
  | pivot :: rest' =>
      let left := insertion_point (length sorted) pivot sorted in
      binary_insertion (firstn left sorted ++ pivot :: skipn left sorted)%list rest'
  end.

(** [arr.sort(cmp)].  With a consistent comparator the result is the stable
    sorted order, which is also what TimSort gives for 64 and more elements,
    where it merges several runs; the order V8 leaves such a long array in
    when the comparator is not consistent is not modelled. *)
Definition sort (arr : list A) : list A :=
  let (made, runLength) := count_and_make_run arr in
  binary_insertion (firstn runLength made) (skipn runLength made).

End Sort.

(** [arr.slice(0, finish)] for an integer [finish]: a negative [finish]
    counts from the end of the array. *)
Definition slice0 {A : Type} (arr : list A) (finish : Z) : list A :=
  let len := Z.of_nat (length arr) in
  let final := if (finish <? 0)%Z then Z.max (len + finish) 0 else Z.min finish len in
  firstn (Z.to_nat final) arr.

(** [arr.slice(start, finish)] for indices [0 <= start <= finish]. *)
Definition slice {A : Type} (arr : list A) (start finish : nat) : list A :=
  firstn (finish - start) (skipn start arr).

(** [[...new Set(arr)]]: each string once, at its first position. *)
Definition set_add (seen : list string) (x : string) : list string :=
  if arr_includes seen x then seen else seen ++ [x].

Definition Set_of (arr : list string) : list string :=
  fold_left set_add arr [].

(** A property access [v.m] followed by a call, for a method [m] that only
    arrays (resp. strings) have: on [undefined] and [null] reading the
    property throws, on any other value the property is [undefined] and the
    call throws. *)
Definition as_array (v : value) : completion (list string) :=
  match v with
  | VArr elems => Normal elems
  | VUndefined | VNull => Throw (TypeError "Cannot read properties of undefined")
  | _ => Throw (TypeError "is not a function")
  end.

Definition as_string_receiver (v : value) : completion string :=
  match v with
  | VStr s => Normal s
  | VUndefined | VNull => Throw (TypeError "Cannot read properties of undefined")
  | _ => Throw (TypeError "is not a function")
  end.

End Js.

Import Js.

(* ===================================================================== *)
(** ** The [natural] package, as far as the service calls it *)
(* ===================================================================== *)

Module Natural.

(** Modelled from the spec: the word tokenizer of the [natural] package,
    which is not part of the repository ("split into word tokens ...
    alphanumeric sequences").  [WordTokenizer.prototype.tokenize] splits on the pattern
    [/[^A-Za-z0-9_]+/] (the pattern also keeps Cyrillic letters, which lie
    outside U+0000..U+00FF) and discards the pieces [''] and [' ']. *)
Definition WordTokenizer_tokenize (s : string) : list string :=
  filter (fun piece => negb (piece =? EmptyString) && negb (piece =? " "))
         (split (fun c => negb (is_word c)) s).

(** What an expression denoting a tokenizer may evaluate to. *)
Inductive receiver : Type :=
| Tokenizer
| NotTokenizer (v : value).

(** [new natural.WordTokenizer()]. *)
Definition new_WordTokenizer : completion receiver := Normal Tokenizer.

(** The constructor is a plain function in the older releases of the package
    and a class in the newer ones. *)
Inductive constructor_kind : Type :=
| FunctionConstructor
| ClassConstructor.

(** [natural.WordTokenizer()], a call without [new]: a function constructor
    runs with [this] bound to the [natural] module object and returns
    [undefined]; a class constructor throws. *)
Definition call_WordTokenizer (kind : constructor_kind) : completion receiver :=
  match kind with
  | FunctionConstructor => Normal (NotTokenizer VUndefined)
  | ClassConstructor =>
      Throw (TypeError "Class constructor WordTokenizer cannot be invoked without 'new'")
  end.

(** Reading [r.tokenize]: the method of a tokenizer; on [undefined] the
    property access throws. *)
Definition tokenize_method (r : receiver) : completion (string -> list string) :=
  match r with
  | Tokenizer => Normal WordTokenizer_tokenize
  | NotTokenizer _ => Throw (TypeError "Cannot read properties of undefined (reading 'tokenize')")
  end.

(** What [analyzeSentiment] takes from the package besides the tokenizer:
    how the constructors are declared, the outcome of
    [new natural.SentimentAnalyzer('English', natural.PorterStemmer, 'afinn')],
    and the score [analyzer.getSentiment(tokens)] (a NaN score is [None]). *)
Record sentiment_api : Type := {
  WordTokenizer_kind : constructor_kind;
  new_SentimentAnalyzer : completion unit;
  getSentiment : list string -> completion (option Q)
}.

(** Modelled from the spec: the stopword set, "a standard list of function
    words", here the English list [natural.stopwords] of the package.  The
    functions of the service take the list as a parameter; this one
    instantiates it in the examples. *)
Definition stopwords : list string :=
  [ "about"; "above"; "after"; "again"; "all"; "also"; "am"; "an"; "and";
    "another"; "any"; "are"; "as"; "at"; "be"; "because"; "been"; "before";
    "being"; "below"; "between"; "both"; "but"; "by"; "came"; "can";
    "cannot"; "come"; "could"; "did"; "do"; "does"; "doing"; "during";
    "each"; "few"; "for"; "from"; "further"; "get"; "got"; "has"; "had";
    "he"; "have"; "her"; "here"; "him"; "himself"; "his"; "how"; "if"; "in";
    "into"; "is"; "it"; "its"; "itself"; "like"; "make"; "many"; "me";
    "might"; "more"; "most"; "much"; "must"; "my"; "myself"; "never"; "now";
    "of"; "on"; "only"; "or"; "other"; "our"; "ours"; "ourselves"; "out";
    "over"; "own"; "said"; "same"; "see"; "should"; "since"; "so"; "some";
    "still"; "such"; "take"; "than"; "that"; "the"; "their"; "theirs";
    "them"; "themselves"; "then"; "there"; "these"; "they"; "this"; "those";
    "through"; "to"; "too"; "under"; "until"; "up"; "very"; "was"; "way";
    "we"; "well"; "were"; "what"; "where"; "when"; "which"; "while"; "who";
    "whom"; "with"; "would"; "why"; "you"; "your"; "yours"; "yourself";
    "a"; "b"; "c"; "d"; "e"; "f"; "g"; "h"; "i"; "j"; "k"; "l"; "m"; "n";
    "o"; "p"; "q"; "r"; "s"; "t"; "u"; "v"; "w"; "x"; "y"; "z"; "$"; "1";
    "2"; "3"; "4"; "5"; "6"; "7"; "8"; "9"; "0"; "_" ].

End Natural.

(* ===================================================================== *)
(** ** services/aiService *)
(* ===================================================================== *)

Module AiService.

(** Common vlogging-related tags. *)
Definition COMMON_TAGS : list string :=
  [ "vlog"; "daily"; "life"; "adventure"; "travel"; "food"; "tech";
    "lifestyle"; "fitness"; "music"; "art"; "photography"; "diy";
    "tutorial"; "review"; "challenge"; "comedy"; "gaming"; "sports";
    "health"; "education"; "business"; "entertainment"; "fashion";
    "beauty"; "cooking"; "nature"; "city"; "culture"; "experience" ].

(** Category-specific tags: the own properties of the object literal, in
    the order they are written. *)
Definition CATEGORY_TAGS : list (string * list string) :=
  [ ("technology", ["tech"; "gadget"; "software"; "hardware"; "innovation"; "digital"; "AI"; "coding"; "programming"]);
    ("travel", ["travel"; "adventure"; "explore"; "journey"; "destination"; "culture"; "vacation"; "trip"; "wanderlust"]);
    ("lifestyle", ["lifestyle"; "daily"; "routine"; "habits"; "wellness"; "mindfulness"; "productivity"; "selfcare"]);
    ("food", ["food"; "cooking"; "recipe"; "kitchen"; "culinary"; "delicious"; "meal"; "restaurant"; "taste"]);
    ("fashion", ["fashion"; "style"; "outfit"; "clothing"; "trend"; "design"; "wardrobe"; "accessories"]);
    ("fitness", ["fitness"; "workout"; "exercise"; "health"; "gym"; "training"; "strength"; "cardio"; "yoga"]);
    ("music", ["music"; "song"; "melody"; "performance"; "concert"; "instrument"; "band"; "artist"; "rhythm"]);
    ("art", ["art"; "creative"; "painting"; "drawing"; "design"; "artist"; "gallery"; "masterpiece"; "inspiration"]);
    ("business", ["business"; "entrepreneur"; "startup"; "marketing"; "success"; "leadership"; "strategy"; "growth"]);
    ("education", ["education"; "learning"; "tutorial"; "knowledge"; "study"; "lesson"; "teaching"; "skill"]);
    ("entertainment", ["entertainment"; "fun"; "show"; "performance"; "comedy"; "drama"; "movie"; "celebrity"]);
    ("gaming", ["gaming"; "game"; "playthrough"; "stream"; "esports"; "console"; "pc"; "multiplayer"]);
    ("sports", ["sports"; "athlete"; "competition"; "training"; "game"; "championship"; "fitness"; "exercise"]);
    ("health", ["health"; "wellness"; "medical"; "nutrition"; "mentalhealth"; "selfcare"; "healing"; "recovery"]);
    ("science", ["science"; "research"; "discovery"; "experiment"; "laboratory"; "technology"; "innovation"]);
    ("photography", ["photography"; "photo"; "camera"; "shoot"; "portrait"; "landscape"; "editing"; "visual"]);
    ("diy", ["diy"; "craft"; "handmade"; "project"; "creative"; "build"; "make"; "tutorial"]);
    ("other", ["vlog"; "video"; "content"; "creator"; "youtube"; "social"; "media"]) ].

(** The same table as an object, for the property access [CATEGORY_TAGS[category]]. *)
Definition CATEGORY_TAGS_object : object :=
  map (fun entry => (fst entry, VArr (snd entry))) CATEGORY_TAGS.

Inductive sentiment : Type :=
| positive
| negative
| neutral.

(** [counts[key] = (counts[key] || 0) + 1], the counting step of
    [wordFreq] and [phraseFreq]. *)
Definition count_one (counts : object) (key : string) : object :=
  set counts key (add_one (or_else (get counts key) (VNum 0))).

(** [([,a], [,b]) => b - a] on the entries of a count object. *)
Definition by_count_desc (x y : string * value) : Z :=
  compare_desc (snd x) (snd y).

(** [Object.entries(counts).sort(([,a], [,b]) => b - a).slice(0, limit).map(([key]) => key)]. *)
Definition top_keys (counts : object) (limit : Z) : list string :=
  map fst (slice0 (sort by_count_desc (entries counts)) limit).

(** One turn of the loop of [extractKeyPhrases] at index [i]: the trigram
    first, then the bigram, each pushed on [phrases]. *)
Definition ngram_step (words : list string) (phrases : list string) (i : nat) : list string :=
  let phrases1 :=
    if (Z.of_nat i <? Z.of_nat (length words) - 2)%Z then
      let trigram := join " " (slice words i (i + 3)) in
      if Nat.ltb 8 (String.length trigram) then (phrases ++ [trigram])%list else phrases
    else phrases in
  let bigram := join " " (slice words i (i + 2)) in
  if Nat.ltb 5 (String.length bigram) then (phrases1 ++ [bigram])%list else phrases1.

(** [for (let i = 0; i < words.length - 1; i++) { .. }]. *)
Definition ngram_loop (words : list string) (phrases : list string) : list string :=
  fold_left (ngram_step words)
            (seq 0 (Z.to_nat (Z.of_nat (length words) - 1)))
            phrases.

(** The score of one category in [suggestCategories]: the inner [forEach]. *)
Definition keyword_score (cleanText : string) (keywords : list string) : Z :=
  fold_left (fun score keyword =>
               if includes cleanText keyword then (score + 1)%Z else score)
            keywords 0%Z.

Section WithNatural.

(** [require('natural').stopwords]. *)
Variable stopwords : list string.

(** [description.toLowerCase().replace(/[^\w\s]/g, ' ').replace(/\s+/g, ' ').trim()]. *)
Definition cleanText_of (description : string) : string :=
  trim (replace_ws_space (replace_punct_space (toLowerCase description))).

(** Remove stopwords, short words and pure numbers. *)
Definition filteredTokens_of (tokens : list string) : list string :=
  filter (fun token =>
            Nat.ltb 2 (String.length token)
            && negb (arr_includes stopwords token)
            && negb (all_digits token))
         tokens.

(** [wordFreq] after [filteredTokens.forEach]. *)
Definition wordFreq_of (filteredTokens : list string) : object :=
  fold_left count_one filteredTokens [].

(** Sort by frequency and get the top words. *)
Definition sortedWords_of (wordFreq : object) : list string :=
  top_keys wordFreq 15.

(** Filter the relevant category tags based on content. *)
Definition relevantCategoryTags_of (cleanText : string) (sortedWords categorySpecificTags : list string)
  : list string :=
  filter (fun tag =>
            includes cleanText tag
            || existsb (fun word => includes tag word) sortedWords)
         categorySpecificTags.

(** Combine the three sources of tags. *)
Definition allPotentialTags_of (cleanText : string) (sortedWords relevantCategoryTags : list string)
  : list string :=
  (relevantCategoryTags
  ++ filter (fun word =>
               negb (arr_includes relevantCategoryTags word)
               && existsb (fun commonTag =>
                             includes word commonTag || includes commonTag word)
                          COMMON_TAGS)
            sortedWords
  ++ filter (fun tag => includes cleanText tag) COMMON_TAGS)%list.

(** Remove duplicates, limit to [maxTags], ensure the minimum length. *)
Definition uniqueTags_of (allPotentialTags : list string) (maxTags : Z) : list string :=
  filter (fun tag => Nat.leb 3 (String.length tag))
         (slice0 (Set_of allPotentialTags) maxTags).

(** The body of [generateTags], inside its [try].  [category] is the
    property key the lookup uses, [maxTags] an integer. *)
Definition generateTags_body (description : value) (category : string) (maxTags : Z)
  : completion (list string) :=
  if negb (truthy description) || negb (is_string description) then Normal []
  else
    text <- as_string_receiver description ;;
    let cleanText := cleanText_of text in
    tokenizer <- Natural.new_WordTokenizer ;;
    tokenize <- Natural.tokenize_method tokenizer ;;
    let tokens := tokenize cleanText in
    let filteredTokens := filteredTokens_of tokens in
    let wordFreq := wordFreq_of filteredTokens in
    let sortedWords := sortedWords_of wordFreq in
    categorySpecificTags <-
      as_array (or_else (get CATEGORY_TAGS_object category)
                        (get CATEGORY_TAGS_object "other")) ;;
    let relevantCategoryTags :=
      relevantCategoryTags_of cleanText sortedWords categorySpecificTags in
    let allPotentialTags :=
      allPotentialTags_of cleanText sortedWords relevantCategoryTags in
    Normal (uniqueTags_of allPotentialTags maxTags).

(** [exports.generateTags = async (description, category = 'other', maxTags = 8) => ..]:
    an omitted [category] is ["other"] and an omitted [maxTags] is [8]. *)
Definition generateTags (description : value) (category : string) (maxTags : Z)
  : promise (list string) :=
  async_try_catch (generateTags_body description category maxTags) [].

(** [categoryScores] after the outer [forEach]. *)
Definition categoryScores_of (cleanText : string) : object :=
  fold_left (fun categoryScores entry =>
               let score := keyword_score cleanText (snd entry) in
               if (0 <? score)%Z
               then set categoryScores (fst entry) (VNum score)
               else categoryScores)
            (entries CATEGORY_TAGS) [].

Definition suggestCategories_body (description : string) (tags : list string)
  : completion (list string) :=
  let cleanText := toLowerCase (description ++ " " ++ join " " tags) in
  Normal (top_keys (categoryScores_of cleanText) 3).

Definition suggestCategories (description : string) (tags : list string)
  : promise (list string) :=
  async_try_catch (suggestCategories_body description tags) [].

(** The filtered words of one sentence in [extractKeyPhrases]. *)
Definition words_of (sentence : string) : list string :=
  filter (fun word =>
            Nat.ltb 2 (String.length word) && negb (arr_includes stopwords word))
         (split is_space (remove_punct (toLowerCase sentence))).

(** [description.split(/[.!?]+/).filter(s => s.trim().length > 0)]. *)
Definition sentences_of (description : string) : list string :=
  filter (fun s => Nat.ltb 0 (String.length (trim s))) (split is_terminator description).

(** [phrases] after [sentences.forEach]. *)
Definition phrases_of (sentences : list string) : list string :=
  fold_left (fun phrases sentence => ngram_loop (words_of sentence) phrases)
            sentences [].

Definition extractKeyPhrases_body (description : value) (maxPhrases : Z)
  : completion (list string) :=
  text <- as_string_receiver description ;;
  let sentences := sentences_of text in
  let phrases := phrases_of sentences in
  let phraseFreq := fold_left count_one phrases [] in
  Normal (top_keys phraseFreq maxPhrases).

(** [exports.extractKeyPhrases = async (description, maxPhrases = 5) => ..]. *)
Definition extractKeyPhrases (description : value) (maxPhrases : Z)
  : promise (list string) :=
  async_try_catch (extractKeyPhrases_body description maxPhrases) [].

End WithNatural.

(** The thresholds: above 0.1 positive, below -0.1 negative, else neutral
    (every comparison with NaN is false). *)
Definition label_of (sentimentScore : option Q) : sentiment :=
  match sentimentScore with
  | None => neutral
  | Some score =>
      if Qlt_le_dec (1 # 10) score then positive
      else if Qlt_le_dec score (- (1 # 10)) then negative
      else neutral
  end.

(** The body of [analyzeSentiment], in evaluation order: the analyzer, the
    call [natural.WordTokenizer()] (no [new]), the property [tokenize] of
    its result, the argument [description.toLowerCase()], the call. *)
Definition analyzeSentiment_body (natural : Natural.sentiment_api) (description : value)
  : completion sentiment :=
  analyzer <- Natural.new_SentimentAnalyzer natural ;;
  tokenizer <- Natural.call_WordTokenizer (Natural.WordTokenizer_kind natural) ;;
  tokenize <- Natural.tokenize_method tokenizer ;;
  text <- as_string_receiver description ;;
  let tokens := tokenize (toLowerCase text) in
  sentimentScore <- Natural.getSentiment natural tokens ;;
  Normal (label_of sentimentScore).

Definition analyzeSentiment (natural : Natural.sentiment_api) (description : value)
  : promise sentiment :=
  async_try_catch (analyzeSentiment_body natural description) neutral.

End AiService.

Import AiService.

(* ===================================================================== *)
(** ** The properties, in the words of the specification *)
(* ===================================================================== *)

Module Spec.

(** A string is lowercase when [toLowerCase] leaves it as it is. *)
Definition lowercase (s : string) : Prop := toLowerCase s = s.

(** A character that [toLowerCase] leaves as it is. *)
Definition lower_fixed (c : ascii) : bool := Ascii.eqb (lower_char c) c.

(** The text of a description; only a string has one. *)
Definition description_text (description : value) : string :=
  match description with
  | VStr text => text
  | _ => EmptyString
  end.

(** The 18 fixed category identifiers. *)
Definition category_names : list string := map fst CATEGORY_TAGS.

(** The keyword list of the given category, the list of ["other"] for a
    category outside the taxonomy. *)
Definition keywords_of (category : string) : list string :=
  match assoc category CATEGORY_TAGS with
  | Some keywords => keywords
  | None =>
      match assoc "other" CATEGORY_TAGS with
      | Some keywords => keywords
      | None => []
      end
  end.

(** The description-plus-tags blob of the Category Suggester. *)
Definition blob_of (description : string) (tags : list string) : string :=
  toLowerCase (description ++ " " ++ join " " tags).

(** The score of a keyword list: how many of its keywords occur in the blob. *)
Definition score (blob : string) (keywords : list string) : nat :=
  length (filter (fun keyword => includes blob keyword) keywords).

Definition entry_score (blob : string) (entry : string * list string) : nat :=
  score blob (snd entry).

(** The categories with a positive score, in table order. *)
Definition scored_categories (blob : string) : list (string * list string) :=
  filter (fun entry => Nat.ltb 0 (entry_score blob entry)) CATEGORY_TAGS.

(** The number of occurrences of a token in the filtered token sequence. *)
Definition frequency (tokens : list string) (token : string) : nat :=
  count_occ string_dec tokens token.

(** Descending frequency, ties by first occurrence: a stable sort of the
    distinct tokens, taken in first-occurrence order. *)
Definition ranked_by_frequency (tokens : list string) : list string :=
  sort (fun a b => Z.of_nat (frequency tokens b) - Z.of_nat (frequency tokens a))%Z
       (Set_of tokens).

Definition top15 (tokens : list string) : list string :=
  firstn 15 (ranked_by_frequency tokens).

(** The trigram and the bigram that start at index [i] of [words]. *)
Definition trigram_at (words : list string) (i : nat) : string :=
  join " " (slice words i (i + 3)).

Definition bigram_at (words : list string) (i : nat) : string :=
  join " " (slice words i (i + 2)).

(** What index [i] contributes to the candidate pool: the trigram when
    [i + 2] is in bounds and the joined string is longer than 8, then the
    bigram when [i + 1] is in bounds and the joined string is longer than 5. *)
Definition ngrams_at (words : list string) (i : nat) : list string :=
  ((if Nat.ltb (i + 2) (length words)
       && Nat.ltb 8 (String.length (trigram_at words i))
    then [trigram_at words i] else [])
   ++
   (if Nat.ltb (i + 1) (length words)
       && Nat.ltb 5 (String.length (bigram_at words i))
    then [bigram_at words i] else []))%list.

Definition candidate_pool (words : list string) : list string :=
  flat_map (ngrams_at words) (seq 0 (length words)).

End Spec.

Import Spec.


(* ===================================================================== *)
(** ** The shape of normalized text *)
(* ===================================================================== *)

Module TextShape.

(** A character of normalized text: [a-z], [0-9], [_] or a space. *)
Definition clean_char (c : ascii) : bool :=
  is_lower c || is_digit c || Nat.eqb (code c) 95 || Nat.eqb (code c) 32.

(** A character of a token of normalized text: [a-z], [0-9] or [_]. *)
Definition token_char (c : ascii) : bool :=
  is_lower c || is_digit c || Nat.eqb (code c) 95.

(** Every whitespace character of the string is a space that follows no
    other whitespace; [after_space] tells that the character before the
    string was whitespace. *)
Fixpoint single_spaced (after_space : bool) (s : string) : bool :=
  match s with
  | EmptyString => true
  | String c s' =>
      if is_space c
      then Nat.eqb (code c) 32 && negb after_space && single_spaced true s'
      else single_spaced false s'
  end.

End TextShape.

Import TextShape.

(* ===================================================================== *)
(** ** The vlog controller: the callers of the Tag Generator *)
(* ===================================================================== *)

(** [createVlog] and [updateVlog] of the vlog controller, as functions from
    what the handler reads (the environment, the signed-in user, the
    uploaded files, the stored vlog, the request body) to what it hands
    over: the document given to [Vlog.create], and for an update either the
    error passed to [next] or the document given to [findByIdAndUpdate]. *)
Module VlogController.

(** A number as [Number(..)] returns it. *)
Inductive number : Type :=
| NaN
| Finite (q : Q)
| Infinity (minus : bool).

(** [n >= m] for a length [n]. *)
Definition length_ge (n : nat) (m : number) : bool :=
  match m with
  | NaN => false
  | Finite q => Qle_bool q (inject_Z (Z.of_nat n))
  | Infinity minus => minus
  end.

(** [process.env] as the handlers read it: the variable
    [AI_TAGGING_ENABLED] ([None] when it is not set) and the number
    [Number(process.env.MIN_DESCRIPTION_LENGTH)]. *)
Record environment : Type := {
  AI_TAGGING_ENABLED : option string;
  MIN_DESCRIPTION_LENGTH : number
}.

(** An uploaded file of [req.files]. *)
Record file : Type := {
  path : string;
  filename : option string;
  public_id : option string
}.

(** An image of a vlog. *)
Record image : Type := {
  url : string;
  publicId : option string;
  caption : string;
  order : nat
}.

(** An element of an array of images.  The handlers build image objects
    from the uploaded files; they never look inside an element that the
    request or the stored vlog gives them. *)
Inductive element : Type :=
| ImageObject (i : image)
| Other (v : value).

(** A value of [req.body.images], which no handler validates: an array, or
    any other value of a request ([VUndefined] when the field is not
    there). *)
Inductive images_field : Type :=
| ArrayOf (elems : list element)
| Plain (v : value).

(** The fields of [req.body] that the two handlers read or write.  A field
    that is not there is [VUndefined]. *)
Record body : Type := {
  author : value;
  images : images_field;
  captions : value;
  description : value;
  tags : value;
  aiGeneratedTags : value
}.

Definition with_author (b : body) (v : value) : body :=
  {| author := v; images := images b; captions := captions b;
     description := description b; tags := tags b;
     aiGeneratedTags := aiGeneratedTags b |}.

Definition with_images (b : body) (v : images_field) : body :=
  {| author := author b; images := v; captions := captions b;
     description := description b; tags := tags b;
     aiGeneratedTags := aiGeneratedTags b |}.

Definition with_tags (b : body) (v : value) : body :=
  {| author := author b; images := images b; captions := captions b;
     description := description b; tags := v;
     aiGeneratedTags := aiGeneratedTags b |}.

Definition with_aiGeneratedTags (b : body) (v : value) : body :=
  {| author := author b; images := images b; captions := captions b;
     description := description b; tags := tags b;
     aiGeneratedTags := v |}.

(** [v.length] of a truthy body field: strings and arrays have one, the
    other values of a parsed body have none. *)
Definition length_of (v : value) : option nat :=
  match v with
  | VStr s => Some (String.length s)
  | VArr elems => Some (length elems)
  | _ => None
  end.

(** [a || b] on two optional strings. *)
Definition or_string (a b : option string) : option string :=
  match a with
  | Some s => if s =? EmptyString then b else a
  | None => b
  end.

(** [req.body.captions?.[i] || '']. *)
Definition caption_at (captions : value) (i : nat) : string :=
  match captions with
  | VArr elems => nth i elems EmptyString
  | VStr s =>
      match String.get i s with
      | Some c => String c EmptyString
      | None => EmptyString
      end
  | _ => EmptyString
  end.

(** [arr.map((x, i) => f x i)], counting from [i]. *)
Fixpoint map_indexed {A B : Type} (f : A -> nat -> B) (i : nat) (arr : list A) : list B :=
  match arr with
  | [] => []
  | x :: arr' => f x i :: map_indexed f (S i) arr'
  end.

(** [req.files.map((file, i) => ({ url: file.path, publicId: file.filename || file.public_id,
    caption: req.body.captions?.[i] || '', order: first + i }))]. *)
Definition uploaded_images (captions : value) (first : nat) (files : list file)
  : list image :=
  map_indexed (fun file i =>
                 {| url := path file;
                    publicId := or_string (filename file) (public_id file);
                    caption := caption_at captions i;
                    order := first + i |})
              0 files.

(** [req.files?.length > 0]. *)
Definition has_files (files : option (list file)) : bool :=
  match files with
  | Some (_ :: _) => true
  | _ => false
  end.

(** The characters of a string, as the spread of a string gives them. *)
Fixpoint characters (s : string) : list string :=
  match s with
  | EmptyString => []
  | String c s' => String c EmptyString :: characters s'
  end.

(** [[...v]]: arrays and strings are iterable. *)
Definition spread (v : value) : completion (list string) :=
  match v with
  | VArr elems => Normal elems
  | VStr s => Normal (characters s)
  | _ => Throw (TypeError "is not iterable")
  end.

(** [await p]. *)
Definition await {A : Type} (p : promise A) : completion A :=
  match p with
  | Fulfilled a => Normal a
  | Rejected e => Throw e
  end.

(** ToBoolean of [req.body.images]: every array is truthy. *)
Definition images_truthy (v : images_field) : bool :=
  match v with
  | ArrayOf _ => true
  | Plain v' => truthy v'
  end.

(** [updatedImages.length]: [None] is [undefined], and every comparison with
    it is false. *)
Definition images_length (v : images_field) : option nat :=
  match v with
  | ArrayOf elems => Some (length elems)
  | Plain v' => length_of v'
  end.

(** [[...updatedImages]]. *)
Definition images_spread (v : images_field) : completion (list element) :=
  match v with
  | ArrayOf elems => Normal elems
  | Plain v' =>
      strings <- spread v' ;;
      Normal (map (fun s => Other (VStr s)) strings)
  end.

(** [process.env.AI_TAGGING_ENABLED === 'true']. *)
Definition tagging_enabled (env : environment) : bool :=
  match AI_TAGGING_ENABLED env with
  | Some s => s =? "true"
  | None => false
  end.

Section WithNatural.

Variable stopwords : list string.

(** The [try] block of both handlers:
    [const tags = await generateTags(req.body.description);
     req.body.tags = [...(req.body.tags || []), ...tags];
     req.body.aiGeneratedTags = true;]. *)
Definition tagging_try (b : body) : completion body :=
  generated <- await (generateTags stopwords (description b) "other" 8) ;;
  own <- spread (or_else (tags b) (VArr [])) ;;
  Normal (with_aiGeneratedTags (with_tags b (VArr (own ++ generated)%list))
                               (VBool true)).

(** The tagging step of [createVlog]; its [catch] sets the flag to false. *)
Definition createVlog_tagging (env : environment) (b : body) : body :=
  if tagging_enabled env
     && truthy (description b)
     && match length_of (description b) with
        | Some n => length_ge n (MIN_DESCRIPTION_LENGTH env)
        | None => false
        end
  then match tagging_try b with
       | Normal b' => b'
       | Throw _ => with_aiGeneratedTags b (VBool false)
       end
  else b.

(** The tagging step of [updateVlog]; its [catch] is empty. *)
Definition updateVlog_tagging (env : environment) (b : body) : body :=
  if truthy (description b) && tagging_enabled env
  then match tagging_try b with
       | Normal b' => b'
       | Throw _ => b
       end
  else b.

(** [createVlog] up to [Vlog.create(req.body)]: the document it creates. *)
Definition createVlog (env : environment) (user_id : string)
           (files : option (list file)) (b : body) : body :=
  let b1 := with_author b (VStr user_id) in
  let b2 :=
    if has_files files
    then with_images b1
           (ArrayOf (map ImageObject
                         (uploaded_images (captions b1) 0
                            (match files with Some l => l | None => [] end))))
    else b1 in
  createVlog_tagging env b2.

(** The stored vlog that [Vlog.findById] returns, and the signed-in user. *)
Record vlog : Type := {
  vlog_author : string;
  vlog_images : list image
}.

Record user : Type := {
  id : string;
  role : string
}.

(** What [updateVlog] hands over: an error for [next], the update for
    [Vlog.findByIdAndUpdate], or an exception it throws. *)
Inductive outcome : Type :=
| ErrorResponse (message : string) (statusCode : nat)
| Update (b : body)
| Thrown (e : error).

Definition updateVlog (env : environment) (found : option vlog) (requester : user)
           (files : option (list file)) (b : body) : outcome :=
  match found with
  | None => ErrorResponse "Vlog not found" 404
  | Some stored =>
      if negb (vlog_author stored =? id requester)
         && negb (role requester =? "admin")
      then ErrorResponse "Not authorized to update this vlog" 403
      else
        (* let updatedImages = req.body.images || vlog.images *)
        let updatedImages :=
          if images_truthy (images b) then images b
          else ArrayOf (map ImageObject (vlog_images stored)) in
        (* updatedImages = [...updatedImages, ...newImages]: a value that can
           be spread is an array or a string, and its length is the number
           of its elements; for any other value the spread throws and the
           new images are lost with it *)
        let appended :=
          if has_files files
          then
            kept <- images_spread updatedImages ;;
            Normal (ArrayOf
                      (kept
                       ++ map ImageObject
                            (uploaded_images (captions b) (length kept)
                               (match files with Some l => l | None => [] end)))%list)
          else Normal updatedImages in
        match appended with
        | Throw e => Thrown e
        | Normal updatedImages =>
            if match images_length updatedImages with
               | Some n => Nat.ltb 10 n
               | None => false
               end
            then ErrorResponse "Cannot have more than 10 images" 400
            else if match images_length updatedImages with
                    | Some n => Nat.eqb n 0
                    | None => false
                    end
            then ErrorResponse "At least one image is required" 400
            else Update (updateVlog_tagging env (with_images b updatedImages))
        end
  end.

End WithNatural.

End VlogController.

(* ===================================================================== *)
(** ** Characters and strings *)
(* ===================================================================== *)

Section Chars.

Lemma lower_char_idem (c : ascii) : lower_char (lower_char c) = lower_char c.
Proof.
  destruct c as [[] [] [] [] [] [] [] []]; vm_compute; reflexivity.
Qed.

Variable P : ascii -> bool.

Lemma all_chars_map (f : ascii -> ascii) (s : string) :
  (forall c, P (f c) = true) -> all_chars P (map_chars f s) = true.
Proof.
  intros Hf. induction s as [|c s IH]; simpl; [reflexivity|].
  now rewrite Hf, IH.
Qed.

Lemma all_chars_filter (q : ascii -> bool) (s : string) :
  all_chars P s = true -> all_chars P (filter_chars q s) = true.
Proof.
  induction s as [|c s IH]; simpl; [reflexivity|].
  intros H. apply andb_true_iff in H as [Hc Hs].
  destruct (q c); simpl; [rewrite Hc|]; auto.
Qed.

Hypothesis P_space : P " "%char = true.

Lemma all_chars_replace_punct (s : string) :
  all_chars P s = true -> all_chars P (replace_punct_space s) = true.
Proof.
  unfold replace_punct_space.
  induction s as [|c s IH]; simpl; [reflexivity|].
  intros H. apply andb_true_iff in H as [Hc Hs].
  rewrite (IH Hs), andb_true_r.
  destruct (is_word c || is_space c); assumption.
Qed.

Lemma all_chars_collapse (b : bool) (s : string) :
  all_chars P s = true -> all_chars P (collapse_ws b s) = true.
Proof.
  revert b. induction s as [|c s IH]; intros b; simpl; [reflexivity|].
  intros H. apply andb_true_iff in H as [Hc Hs].
  destruct (is_space c).
  - destruct b; simpl; [|rewrite P_space; simpl]; apply IH; assumption.
  - simpl. rewrite Hc. apply IH; assumption.
Qed.

End Chars.

Lemma all_chars_trimStart (P : ascii -> bool) (s : string) :
  all_chars P s = true -> all_chars P (trimStart s) = true.
Proof.
  induction s as [|c s IH]; simpl; [reflexivity|].
  intros H. destruct (is_space c); [|exact H].
  apply andb_true_iff in H as [_ Hs]. auto.
Qed.

Lemma all_chars_trimEnd (P : ascii -> bool) (s : string) :
  all_chars P s = true -> all_chars P (trimEnd s) = true.
Proof.
  induction s as [|c s IH]; simpl; [reflexivity|].
  intros H. apply andb_true_iff in H as [Hc Hs].
  specialize (IH Hs).
  destruct (trimEnd s) as [|c' r].
  - destruct (is_space c); simpl; [reflexivity|]. now rewrite Hc.
  - simpl in *. now rewrite Hc, IH.
Qed.

Lemma all_chars_split (P sep : ascii -> bool) (s : string) (b : bool) :
  all_chars P s = true ->
  Forall (fun piece => all_chars P piece = true) (split_runs sep b s).
Proof.
  revert b. induction s as [|c s IH]; intros b H; simpl.
  - repeat constructor.
  - simpl in H. apply andb_true_iff in H as [Hc Hs].
    destruct (sep c).
    + destruct b; [apply IH; assumption|].
      constructor; [reflexivity|apply IH; assumption].
    + specialize (IH false Hs).
      destruct (split_runs sep false s) as [|p ps].
      * repeat constructor. simpl. now rewrite Hc.
      * inversion IH; subst. constructor; [|assumption].
        simpl. now rewrite Hc.
Qed.

Lemma lower_fixed_lowercase (s : string) :
  all_chars lower_fixed s = true -> lowercase s.
Proof.
  unfold lowercase, toLowerCase.
  induction s as [|c s IH]; simpl; [reflexivity|].
  intros H. apply andb_true_iff in H as [Hc Hs].
  apply Ascii.eqb_eq in Hc. now rewrite Hc, IH.
Qed.

Lemma lower_fixed_toLowerCase (s : string) :
  all_chars lower_fixed (toLowerCase s) = true.
Proof.
  apply all_chars_map. intros c. unfold lower_fixed.
  rewrite lower_char_idem. apply Ascii.eqb_refl.
Qed.

Lemma lower_fixed_cleanText (description : string) :
  all_chars lower_fixed (cleanText_of description) = true.
Proof.
  unfold cleanText_of, trim, replace_ws_space.
  apply all_chars_trimEnd, all_chars_trimStart.
  apply all_chars_collapse; [reflexivity|].
  apply all_chars_replace_punct; [reflexivity|].
  apply lower_fixed_toLowerCase.
Qed.

Lemma tokenize_all_chars (P : ascii -> bool) (s token : string) :
  all_chars P s = true ->
  In token (Natural.WordTokenizer_tokenize s) ->
  all_chars P token = true.
Proof.
  intros Hs Hin. unfold Natural.WordTokenizer_tokenize, split in Hin.
  apply filter_In in Hin as [Hin _].
  pose proof (all_chars_split P (fun c => negb (is_word c)) s false Hs) as Hall.
  rewrite Forall_forall in Hall. now apply Hall.
Qed.

Lemma startsWith_prefix (s t : string) :
  startsWith s t = true <-> exists post, s = (t ++ post)%string.
Proof.
  revert s. induction t as [|b t IH]; intros s; simpl.
  - split; [intros _; now exists s|reflexivity].
  - destruct s as [|a s]; [split; [discriminate|intros [post H]; discriminate]|].
    rewrite andb_true_iff, Ascii.eqb_eq, IH. split.
    + intros [-> [post ->]]. now exists post.
    + intros [post [= -> ->]]. split; [reflexivity|now exists post].
Qed.

(** [includes s t] holds exactly when [t] is a literal substring of [s]. *)
Lemma includes_substring (s t : string) :
  includes s t = true <-> exists pre post, s = (pre ++ t ++ post)%string.
Proof.
  induction s as [|a s IH]; simpl.
  - rewrite orb_false_r, startsWith_prefix. split.
    + intros [post H]. now exists EmptyString, post.
    + intros [[|c pre] [post H]]; [now exists post|discriminate].
  - rewrite orb_true_iff, startsWith_prefix, IH. split.
    + intros [[post H]|[pre [post ->]]].
      * now exists EmptyString, post.
      * now exists (String a pre), post.
    + intros [[|c pre] [post H]].
      * left. now exists post.
      * right. injection H as -> ->. now exists pre, post.
Qed.

Lemma tokens_lowercase (description token : string) :
  In token (Natural.WordTokenizer_tokenize (cleanText_of description)) ->
  lowercase token.
Proof.
  intros Hin. apply lower_fixed_lowercase.
  eapply tokenize_all_chars; [apply lower_fixed_cleanText|exact Hin].
Qed.

(* ===================================================================== *)
(** ** Arrays: [Set], [slice], [sort], [Object.entries] *)
(* ===================================================================== *)

Open Scope list_scope.

Lemma arr_includes_In (arr : list string) (x : string) :
  arr_includes arr x = true <-> In x arr.
Proof.
  unfold arr_includes. rewrite existsb_exists. split.
  - intros [y [Hy Heq]]. apply String.eqb_eq in Heq. now subst.
  - intros H. exists x. split; [assumption|apply String.eqb_refl].
Qed.

Lemma arr_includes_not_In (arr : list string) (x : string) :
  arr_includes arr x = false <-> ~ In x arr.
Proof.
  rewrite <- arr_includes_In. destruct (arr_includes arr x); split; congruence.
Qed.

Lemma set_add_In (seen : list string) (x y : string) :
  In y (set_add seen x) <-> In y seen \/ y = x.
Proof.
  unfold set_add. destruct (arr_includes seen x) eqn:E.
  - apply arr_includes_In in E. split; [auto|]. intros [H| ->]; assumption.
  - rewrite in_app_iff. simpl. intuition.
Qed.

Lemma set_add_NoDup (seen : list string) (x : string) :
  NoDup seen -> NoDup (set_add seen x).
Proof.
  intros H. unfold set_add. destruct (arr_includes seen x) eqn:E; [assumption|].
  apply arr_includes_not_In in E.
  apply NoDup_rev in H. rewrite <- (rev_involutive (seen ++ [x])).
  apply NoDup_rev. rewrite rev_app_distr. simpl.
  constructor; [|assumption]. now rewrite <- in_rev.
Qed.

Lemma Set_fold_In (arr seen : list string) (y : string) :
  In y (fold_left set_add arr seen) <-> In y seen \/ In y arr.
Proof.
  revert seen. induction arr as [|x arr IH]; intros seen; simpl.
  - intuition.
  - rewrite IH, set_add_In. intuition.
Qed.

Lemma Set_fold_NoDup (arr seen : list string) :
  NoDup seen -> NoDup (fold_left set_add arr seen).
Proof.
  revert seen. induction arr as [|x arr IH]; intros seen H; simpl; [assumption|].
  apply IH, set_add_NoDup, H.
Qed.

Lemma Set_of_In (arr : list string) (y : string) : In y (Set_of arr) <-> In y arr.
Proof. unfold Set_of. rewrite Set_fold_In. simpl. intuition. Qed.

Lemma Set_of_NoDup (arr : list string) : NoDup (Set_of arr).
Proof. apply Set_fold_NoDup. constructor. Qed.

Lemma firstn_In_keeps {A : Type} (n : nat) (l : list A) (x : A) :
  In x (firstn n l) -> In x l.
Proof.
  revert n. induction l as [|y l IH]; intros [|n]; simpl; try tauto.
  intros [H|H]; [auto|right; eapply IH, H].
Qed.

Lemma NoDup_firstn_keeps {A : Type} (n : nat) (l : list A) :
  NoDup l -> NoDup (firstn n l).
Proof.
  revert n. induction l as [|x l IH]; intros [|n] H; simpl; try constructor.
  - inversion H; subst. intros Hin. apply firstn_In_keeps in Hin. contradiction.
  - inversion H; subst. auto.
Qed.

Lemma slice0_incl {A : Type} (arr : list A) (finish : Z) :
  incl (slice0 arr finish) arr.
Proof. unfold slice0. intros x Hx. eapply firstn_In_keeps, Hx. Qed.

Lemma slice0_NoDup {A : Type} (arr : list A) (finish : Z) :
  NoDup arr -> NoDup (slice0 arr finish).
Proof. apply NoDup_firstn_keeps. Qed.

Lemma slice0_length {A : Type} (arr : list A) (finish : Z) :
  (0 <= finish)%Z -> (Z.of_nat (length (slice0 arr finish)) <= finish)%Z.
Proof.
  intros H. unfold slice0. rewrite length_firstn.
  destruct (Z.ltb_spec finish 0); lia.
Qed.

Lemma slice0_firstn {A : Type} (arr : list A) (n : nat) :
  slice0 arr (Z.of_nat n) = firstn n arr.
Proof.
  unfold slice0. destruct (Z.ltb_spec (Z.of_nat n) 0); [lia|].
  destruct (Z.min_spec (Z.of_nat n) (Z.of_nat (length arr))) as [[Hlt ->]|[Hge ->]].
  - now rewrite Nat2Z.id.
  - rewrite Nat2Z.id. rewrite firstn_all.
    symmetry. apply firstn_all2. lia.
Qed.

Create HintDb arrays.
#[local] Hint Resolve Set_of_NoDup slice0_NoDup NoDup_filter : arrays.
#[local] Hint Resolve slice0_incl : arrays.

Lemma filter_length_le {A : Type} (p : A -> bool) (l : list A) :
  length (filter p l) <= length l.
Proof.
  induction l as [|x l IH]; simpl; [lia|]. destruct (p x); simpl; lia.
Qed.

Section SortFacts.
Context {A : Type}.
Variable cmp : A -> A -> Z.

Lemma run_rest_le (descending : bool) (previous : A) (rest : list A) :
  run_rest cmp descending previous rest <= length rest.
Proof.
  revert previous. induction rest as [|current rest IH]; intros previous; simpl.
  - lia.
  - destruct (if descending then _ else _); [lia|].
    specialize (IH current). lia.
Qed.

(** The run that [CountAndMakeRun] counts is inside the array. *)
Lemma count_and_make_run_length (arr : list A) :
  snd (count_and_make_run cmp arr) <= length arr
  /\ length (fst (count_and_make_run cmp arr)) = length arr.
Proof.
  destruct arr as [|first [|second rest]]; try (cbn; split; lia).
  unfold count_and_make_run.
  pose proof (run_rest_le (cmp second first <? 0)%Z second rest) as Hle.
  destruct (cmp second first <? 0)%Z; cbn [fst snd]; split;
    try (cbn [length]; lia).
  rewrite length_app, length_rev, <- length_app, firstn_skipn. reflexivity.
Qed.

Lemma count_and_make_run_perm (arr : list A) :
  Permutation (fst (count_and_make_run cmp arr)) arr.
Proof.
  destruct arr as [|first [|second rest]]; try reflexivity.
  unfold count_and_make_run.
  destruct (cmp second first <? 0)%Z; cbn [fst]; [|reflexivity].
  rewrite <- (firstn_skipn (2 + run_rest cmp true second rest)
                           (first :: second :: rest)) at 3.
  apply Permutation_app_tail. symmetry. apply Permutation_rev.
Qed.

Lemma insert_perm (k : nat) (pivot : A) (sorted : list A) :
  Permutation (firstn k sorted ++ pivot :: skipn k sorted) (pivot :: sorted).
Proof.
  rewrite <- (firstn_skipn k sorted) at 3. symmetry. apply Permutation_middle.
Qed.

Lemma binary_insertion_perm (sorted rest : list A) :
  Permutation (binary_insertion cmp sorted rest) (sorted ++ rest).
Proof.
  revert sorted. induction rest as [|pivot rest IH]; intros sorted; simpl.
  - now rewrite app_nil_r.
  - rewrite IH, insert_perm. apply Permutation_middle.
Qed.

Lemma sort_perm (l : list A) : Permutation (sort cmp l) l.
Proof.
  unfold sort. pose proof (count_and_make_run_perm l) as H.
  destruct (count_and_make_run cmp l) as [made runLength]. cbn [fst] in H.
  now rewrite binary_insertion_perm, firstn_skipn.
Qed.

End SortFacts.

Lemma insert_index_perm {V : Type} (e : string * V) (l : list (string * V)) :
  Permutation (insert_index e l) (e :: l).
Proof.
  induction l as [|e' l IH]; simpl; [reflexivity|].
  destruct (digits_value 0 (fst e) <? digits_value 0 (fst e'))%Z; [reflexivity|].
  rewrite IH. apply perm_swap.
Qed.

Lemma filter_partition_perm {A : Type} (p : A -> bool) (l : list A) :
  Permutation (filter p l ++ filter (fun x => negb (p x)) l) l.
Proof.
  induction l as [|x l IH]; simpl; [reflexivity|].
  destruct (p x); simpl.
  - now rewrite IH.
  - rewrite <- Permutation_middle. now rewrite IH.
Qed.

Lemma entries_perm {V : Type} (o : list (string * V)) : Permutation (entries o) o.
Proof.
  unfold entries.
  rewrite <- (filter_partition_perm (fun e => is_array_index (fst e)) o) at 3.
  apply Permutation_app_tail.
  induction (filter (fun e => is_array_index (fst e)) o) as [|e l IH]; simpl.
  - reflexivity.
  - now rewrite insert_index_perm, IH.
Qed.

Lemma entries_no_index {V : Type} (o : list (string * V)) :
  forallb (fun e => negb (is_array_index (fst e))) o = true -> entries o = o.
Proof.
  intros H. unfold entries.
  assert (Hidx : filter (fun e => is_array_index (fst e)) o = []).
  { induction o as [|e o IH]; simpl in *; [reflexivity|].
    apply andb_true_iff in H as [He Ho].
    apply negb_true_iff in He. rewrite He. auto. }
  rewrite Hidx. simpl.
  induction o as [|e o IH]; simpl in *; [reflexivity|].
  apply andb_true_iff in H as [He Ho]. rewrite He. f_equal. apply IH; [assumption|].
  simpl in Hidx. apply negb_true_iff in He. rewrite He in Hidx. assumption.
Qed.

(** The selected keys are keys of the object, and there are at most [limit]
    of them when [limit] is not negative. *)
Lemma top_keys_incl (counts : object) (limit : Z) :
  incl (top_keys counts limit) (map fst counts).
Proof.
  unfold top_keys. intros k Hk. apply in_map_iff in Hk as [e [<- He]].
  apply slice0_incl in He.
  apply (Permutation_in _ (sort_perm by_count_desc _)) in He.
  apply (Permutation_in _ (entries_perm _)) in He.
  now apply in_map.
Qed.

Lemma top_keys_length (counts : object) (limit : Z) :
  (0 <= limit)%Z -> (Z.of_nat (length (top_keys counts limit)) <= limit)%Z.
Proof.
  intros H. unfold top_keys. rewrite length_map. now apply slice0_length.
Qed.

Lemma update_keys (o : object) (k : string) (v : value) (k' : string) :
  In k' (map fst (update o k v)) -> k' = k \/ In k' (map fst o).
Proof.
  induction o as [|[k0 v0] o IH]; simpl.
  - intuition.
  - destruct (String.eqb_spec k k0); simpl; intuition.
Qed.

Lemma count_one_keys (counts : object) (key k : string) :
  In k (map fst (count_one counts key)) -> k = key \/ In k (map fst counts).
Proof.
  unfold count_one, set. destruct (key =? "__proto__"); [auto|].
  apply update_keys.
Qed.

Lemma count_fold_keys (keys : list string) (counts : object) (k : string) :
  In k (map fst (fold_left count_one keys counts)) ->
  In k (map fst counts) \/ In k keys.
Proof.
  revert counts. induction keys as [|key keys IH]; intros counts; simpl; [auto|].
  intros H. apply IH in H as [H|H]; [|auto].
  apply count_one_keys in H. intuition.
Qed.

(* ===================================================================== *)
(** ** The category table and its lookup *)
(* ===================================================================== *)

Lemma assoc_In {V : Type} (k : string) (l : list (string * V)) (v : V) :
  assoc k l = Some v -> In (k, v) l.
Proof.
  induction l as [|[k' v'] l IH]; simpl; [discriminate|].
  destruct (String.eqb_spec k k') as [->|Hne].
  - intros [= ->]. now left.
  - intros H. right. auto.
Qed.

Lemma assoc_None {V : Type} (k : string) (l : list (string * V)) :
  assoc k l = None <-> ~ In k (map fst l).
Proof.
  induction l as [|[k' v'] l IH]; simpl; [tauto|].
  destruct (String.eqb_spec k k') as [->|Hne].
  - split; [discriminate|]. intros H. exfalso. apply H. now left.
  - rewrite IH. split; [intros H [E|E]; [congruence|tauto]|tauto].
Qed.

Lemma assoc_CATEGORY_TAGS_object (category : string) :
  assoc category CATEGORY_TAGS_object = option_map VArr (assoc category CATEGORY_TAGS).
Proof.
  unfold CATEGORY_TAGS_object.
  induction CATEGORY_TAGS as [|[k l] T IH]; simpl; [reflexivity|].
  destruct (category =? k); [reflexivity|exact IH].
Qed.

(** Every inherited property is a function or an object: it is truthy and
    it is no array. *)
Lemma Object_prototype_values (k : string) (v : value) :
  assoc k Object_prototype = Some v -> v = VObj \/ exists name, v = VFun name.
Proof.
  unfold Object_prototype. simpl.
  repeat match goal with
         | |- context [if ?b then _ else _] => destruct b
         end;
    intros H; inversion H; eauto.
Qed.

(** The table has no key in common with [Object.prototype]. *)
Lemma CATEGORY_TAGS_not_inherited (category : string) (keywords : list string) :
  assoc category CATEGORY_TAGS = Some keywords ->
  assoc category Object_prototype = None.
Proof.
  intros H. apply assoc_In in H.
  assert (Hk : In category category_names) by (apply (in_map fst) in H; exact H).
  unfold category_names in Hk. simpl in Hk.
  repeat (destruct Hk as [<-|Hk]; [reflexivity|]). contradiction.
Qed.

Lemma get_CATEGORY_TAGS (category : string) :
  get CATEGORY_TAGS_object category =
  match assoc category CATEGORY_TAGS with
  | Some keywords => VArr keywords
  | None =>
      match assoc category Object_prototype with
      | Some v => v
      | None => VUndefined
      end
  end.
Proof.
  unfold get. rewrite assoc_CATEGORY_TAGS_object.
  now destruct (assoc category CATEGORY_TAGS).
Qed.

(** The three outcomes of [CATEGORY_TAGS[category] || CATEGORY_TAGS.other]
    followed by [.filter]: an own key gives its list; an inherited key gives
    a function or object, on which [.filter] is not a function; any other
    key gives the list of ["other"]. *)
Lemma category_lookup (category : string) :
  let lookup := as_array (or_else (get CATEGORY_TAGS_object category)
                                  (get CATEGORY_TAGS_object "other")) in
  match assoc category CATEGORY_TAGS, assoc category Object_prototype with
  | Some keywords, _ => lookup = Normal keywords
  | None, Some _ => lookup = Throw (TypeError "is not a function")
  | None, None => lookup = Normal (keywords_of "other")
  end.
Proof.
  cbv zeta. rewrite (get_CATEGORY_TAGS category).
  destruct (assoc category CATEGORY_TAGS) as [keywords|] eqn:E.
  - reflexivity.
  - destruct (assoc category Object_prototype) as [v|] eqn:Ep.
    + apply Object_prototype_values in Ep.
      destruct Ep as [Hv|[name Hv]]; subst v; reflexivity.
    + reflexivity.
Qed.

Lemma category_lookup_Normal (category : string) (keywords : list string) :
  as_array (or_else (get CATEGORY_TAGS_object category)
                    (get CATEGORY_TAGS_object "other")) = Normal keywords ->
  keywords = keywords_of category.
Proof.
  pose proof (category_lookup category) as H. cbv zeta in H.
  unfold keywords_of at 1.
  destruct (assoc category CATEGORY_TAGS) as [kws|] eqn:E.
  - rewrite H. now intros [= <-].
  - destruct (assoc category Object_prototype); rewrite H.
    + discriminate.
    + now intros [= <-].
Qed.

Lemma keywords_of_in_table (category : string) :
  In (keywords_of category) (map snd CATEGORY_TAGS).
Proof.
  unfold keywords_of. destruct (assoc category CATEGORY_TAGS) as [kws|] eqn:E.
  - apply assoc_In in E. now apply (in_map snd) in E.
  - simpl. do 17 right. now left.
Qed.

Lemma table_keywords_lowercase (keywords : list string) (tag : string) :
  In keywords (map snd CATEGORY_TAGS) -> In tag keywords ->
  3 <= String.length tag -> lowercase tag.
Proof.
  intros Hk Ht Hlen.
  assert (Hall : forallb (fun kws =>
                   forallb (fun t => Nat.ltb (String.length t) 3 || (toLowerCase t =? t)) kws)
                   (map snd CATEGORY_TAGS) = true) by (vm_compute; reflexivity).
  rewrite forallb_forall in Hall. specialize (Hall _ Hk).
  rewrite forallb_forall in Hall. specialize (Hall _ Ht).
  apply orb_true_iff in Hall as [H|H].
  - apply Nat.ltb_lt in H. lia.
  - now apply String.eqb_eq in H.
Qed.

Lemma COMMON_TAGS_lowercase (tag : string) : In tag COMMON_TAGS -> lowercase tag.
Proof.
  intros H.
  assert (Hall : forallb (fun t => toLowerCase t =? t) COMMON_TAGS = true)
    by (vm_compute; reflexivity).
  rewrite forallb_forall in Hall. now apply String.eqb_eq, Hall.
Qed.

(* ===================================================================== *)
(** ** Tag Generator *)
(* ===================================================================== *)

Section TagGenerator.
Variable stopwords : list string.

(** The early return of [generateTags]. *)
Lemma generateTags_body_guard (description : value) (category : string) (maxTags : Z) :
  is_string description = false \/ description = VStr EmptyString ->
  generateTags_body stopwords description category maxTags = Normal [].
Proof.
  intros [H| ->]; [|reflexivity].
  unfold generateTags_body. rewrite H. simpl negb. now rewrite orb_true_r.
Qed.

(** Past the guard, the only step that can throw is the category lookup. *)
Lemma generateTags_body_string (c : ascii) (rest category : string) (maxTags : Z) :
  let cleanText := cleanText_of (String c rest) in
  let sortedWords :=
    sortedWords_of (wordFreq_of
      (filteredTokens_of stopwords (Natural.WordTokenizer_tokenize cleanText))) in
  generateTags_body stopwords (VStr (String c rest)) category maxTags =
  (categorySpecificTags <-
     as_array (or_else (get CATEGORY_TAGS_object category)
                       (get CATEGORY_TAGS_object "other")) ;;
   Normal (uniqueTags_of
             (allPotentialTags_of cleanText sortedWords
                (relevantCategoryTags_of cleanText sortedWords categorySpecificTags))
             maxTags)).
Proof. reflexivity. Qed.

Lemma sortedWords_are_tokens (tokens : list string) (word : string) :
  In word (sortedWords_of (wordFreq_of (filteredTokens_of stopwords tokens))) ->
  In word tokens.
Proof.
  intros H. unfold sortedWords_of in H. apply top_keys_incl in H.
  unfold wordFreq_of in H. apply count_fold_keys in H as [[]|H].
  unfold filteredTokens_of in H. now apply filter_In in H as [H _].
Qed.

(** Where a candidate tag comes from. *)
Lemma allPotentialTags_sources (cleanText : string) (sortedWords keywords : list string)
      (tag : string) :
  In tag (allPotentialTags_of cleanText sortedWords
            (relevantCategoryTags_of cleanText sortedWords keywords)) ->
  In tag keywords \/ In tag sortedWords \/ In tag COMMON_TAGS.
Proof.
  unfold allPotentialTags_of, relevantCategoryTags_of.
  rewrite !in_app_iff, !filter_In. tauto.
Qed.

Lemma uniqueTags_incl (allPotentialTags : list string) (maxTags : Z) (tag : string) :
  In tag (uniqueTags_of allPotentialTags maxTags) ->
  In tag allPotentialTags /\ 3 <= String.length tag.
Proof.
  unfold uniqueTags_of. rewrite filter_In. intros [H Hlen].
  apply slice0_incl in H. rewrite Set_of_In in H. split; [assumption|].
  now apply Nat.leb_le in Hlen.
Qed.

Lemma uniqueTags_NoDup (allPotentialTags : list string) (maxTags : Z) :
  NoDup (uniqueTags_of allPotentialTags maxTags).
Proof. unfold uniqueTags_of. auto with arrays. Qed.

Lemma uniqueTags_length (allPotentialTags : list string) (maxTags : Z) :
  (0 <= maxTags)%Z ->
  (Z.of_nat (length (uniqueTags_of allPotentialTags maxTags)) <= maxTags)%Z.
Proof.
  intros H. unfold uniqueTags_of.
  pose proof (filter_length_le (fun tag => Nat.leb 3 (String.length tag))
                (slice0 (Set_of allPotentialTags) maxTags)).
  pose proof (slice0_length (Set_of allPotentialTags) maxTags H). lia.
Qed.

(** The shape of every result: nothing, or the unique tags computed from the
    keyword list of the category. *)
Lemma generateTags_cases (description : value) (category : string) (maxTags : Z) :
  generateTags stopwords description category maxTags = Fulfilled []
  \/ exists text,
       description = VStr text /\
       let cleanText := cleanText_of text in
       let sortedWords :=
         sortedWords_of (wordFreq_of
           (filteredTokens_of stopwords (Natural.WordTokenizer_tokenize cleanText))) in
       generateTags stopwords description category maxTags =
       Fulfilled (uniqueTags_of
                    (allPotentialTags_of cleanText sortedWords
                       (relevantCategoryTags_of cleanText sortedWords
                          (keywords_of category)))
                    maxTags).
Proof.
  unfold generateTags.
  destruct description as [ | |b|n| |text|name| |elems];
    try (left; rewrite generateTags_body_guard; [reflexivity|left; reflexivity]).
  destruct text as [|c rest].
  - left. reflexivity.
  - rewrite generateTags_body_string. cbv zeta.
    destruct (as_array (or_else (get CATEGORY_TAGS_object category)
                                (get CATEGORY_TAGS_object "other")))
      as [keywords|e] eqn:E; cbn [bind async_try_catch].
    + right. exists (String c rest). split; [reflexivity|].
      apply category_lookup_Normal in E. now subst keywords.
    + left. reflexivity.
Qed.

End TagGenerator.

(** C1: for every description, category and [maxTags], the Tag Generator
    returns a sequence of tags, each of them lowercase and at least 3
    characters long, and no tag twice; it returns at most [maxTags] tags
    for every tag count [maxTags], that is, every integer that is not
    negative. *)
Theorem generateTags_output (stopwords : list string) (description : value)
        (category : string) (maxTags : Z) :
  exists tags,
    generateTags stopwords description category maxTags = Fulfilled tags /\
    ((0 <= maxTags)%Z -> (Z.of_nat (length tags) <= maxTags)%Z) /\
    Forall (fun tag => lowercase tag /\ 3 <= String.length tag) tags /\
    NoDup tags.
Proof.
  destruct (generateTags_cases stopwords description category maxTags)
    as [H|[text [-> H]]]; cbv zeta in *; rewrite H.
  - exists []. repeat split; [simpl; lia|constructor|constructor].
  - eexists. split; [reflexivity|]. split; [|split].
    + apply uniqueTags_length.
    + apply Forall_forall. intros tag Htag.
      apply uniqueTags_incl in Htag as [Htag Hlen]. split; [|assumption].
      apply allPotentialTags_sources in Htag as [Hk|[Hw|Hc]].
      * eapply table_keywords_lowercase; eauto using keywords_of_in_table.
      * apply sortedWords_are_tokens in Hw. eapply tokens_lowercase, Hw.
      * now apply COMMON_TAGS_lowercase.
    + apply uniqueTags_NoDup.
Qed.

Lemma generateTags_output_witness :
  exists tags,
    generateTags Natural.stopwords
                 (VStr "I love building AI apps with React and Node tutorials")
                 "technology" 8 = Fulfilled tags /\
    (Z.of_nat (length tags) <= 8)%Z /\
    Forall (fun tag => lowercase tag /\ 3 <= String.length tag) tags /\
    NoDup tags.
Proof.
  destruct (generateTags_output Natural.stopwords
              (VStr "I love building AI apps with React and Node tutorials")
              "technology" 8) as [tags [Heq [Hlen [Hall Hnd]]]].
  exists tags. repeat split; try assumption. apply Hlen. lia.
Defined.

(** Outside the tag counts: a negative [maxTags], which no caller passes,
    is an end index that [slice] counts from the end of the array;
    [slice(0, -1)] drops the last candidate only. *)
Lemma generateTags_negative_maxTags :
  generateTags Natural.stopwords (VStr "vlog travel food") "other" (-1)
  = Fulfilled ["vlog"; "travel"]
  /\ (-1 < Z.of_nat (length ["vlog"; "travel"]))%Z.
Proof. split; [vm_compute; reflexivity|simpl; lia]. Qed.

(** C2: a description that is not a string, or the empty string, gives the
    empty sequence; the promise of [generateTags] is fulfilled on every
    input, and an exception inside the body gives the empty sequence. *)
Theorem generateTags_never_throws (stopwords : list string) (description : value)
        (category : string) (maxTags : Z) :
  (is_string description = false \/ description = VStr EmptyString ->
   generateTags stopwords description category maxTags = Fulfilled [])
  /\ (exists tags,
        generateTags stopwords description category maxTags = Fulfilled tags)
  /\ (forall e,
        generateTags_body stopwords description category maxTags = Throw e ->
        generateTags stopwords description category maxTags = Fulfilled []).
Proof.
  split; [|split].
  - intros H. unfold generateTags. now rewrite generateTags_body_guard.
  - unfold generateTags, async_try_catch.
    destruct (generateTags_body stopwords description category maxTags); eauto.
  - intros e H. unfold generateTags. now rewrite H.
Qed.

Lemma generateTags_never_throws_witness :
  generateTags Natural.stopwords VNull "other" 8 = Fulfilled [].
Proof.
  apply (proj1 (generateTags_never_throws Natural.stopwords VNull "other" 8)).
  left. reflexivity.
Defined.

(** The handler of [generateTags] is reached: an inherited property name as
    the category makes [.filter] throw, and the result is the empty
    sequence. *)
Example generateTags_caught :
  generateTags_body Natural.stopwords (VStr "vlog") "toString" 8
  = Throw (TypeError "is not a function")
  /\ generateTags Natural.stopwords (VStr "vlog") "toString" 8 = Fulfilled [].
Proof. split; vm_compute; reflexivity. Qed.

(** C10: every returned tag is a keyword of the selected category's list, a
    token of the normalized description, or an entry of the common-tag
    vocabulary. *)
Theorem generateTags_sources (stopwords : list string) (description : value)
        (category : string) (maxTags : Z) :
  exists tags,
    generateTags stopwords description category maxTags = Fulfilled tags /\
    Forall (fun tag =>
              In tag (keywords_of category)
              \/ In tag (Natural.WordTokenizer_tokenize
                           (cleanText_of (description_text description)))
              \/ In tag COMMON_TAGS)
           tags.
Proof.
  destruct (generateTags_cases stopwords description category maxTags)
    as [H|[text [-> H]]]; cbv zeta in *; rewrite H.
  - exists []. split; [reflexivity|constructor].
  - eexists. split; [reflexivity|].
    apply Forall_forall. intros tag Htag.
    apply uniqueTags_incl in Htag as [Htag _].
    apply allPotentialTags_sources in Htag as [Hk|[Hw|Hc]]; [tauto| |tauto].
    right; left. simpl. eapply sortedWords_are_tokens, Hw.
Qed.

(** X5: an unrecognized category that is no inherited property name is treated
    as ["other"]. *)
Lemma generateTags_fallback (stopwords : list string) (description : value)
      (category : string) (maxTags : Z) :
  ~ In category category_names ->
  assoc category Object_prototype = None ->
  generateTags stopwords description category maxTags
  = generateTags stopwords description "other" maxTags.
Proof.
  intros Hnot Hproto. apply assoc_None in Hnot.
  unfold generateTags. f_equal.
  destruct description as [ | |b|n| |text|name| |elems]; try reflexivity.
  destruct text as [|c rest]; [reflexivity|].
  rewrite !generateTags_body_string. cbv zeta.
  pose proof (category_lookup category) as Hc. cbv zeta in Hc.
  rewrite Hnot, Hproto in Hc. rewrite Hc. reflexivity.
Qed.

(** C9, at the failing input: with the category ["toString"], which is not
    one of the 18 names, the lookup [CATEGORY_TAGS[category]] finds the
    inherited function, [.filter] throws, and the result is empty; with the
    category ["other"] the same description gives the tag ["vlog"]. *)
Theorem generateTags_inherited_category (stopwords : list string) :
  ~ In "toString" category_names
  /\ generateTags stopwords (VStr "vlog") "toString" 8 = Fulfilled []
  /\ generateTags stopwords (VStr "vlog") "other" 8 = Fulfilled ["vlog"].
Proof.
  split; [|split].
  - apply assoc_None. reflexivity.
  - unfold generateTags. rewrite generateTags_body_string. reflexivity.
  - unfold generateTags. rewrite generateTags_body_string. cbv zeta.
    change (cleanText_of "vlog") with "vlog".
    change (Natural.WordTokenizer_tokenize "vlog") with ["vlog"].
    unfold filteredTokens_of. simpl filter.
    destruct (arr_includes stopwords "vlog"); reflexivity.
Qed.

(* ===================================================================== *)
(** ** Sentiment Classifier *)
(* ===================================================================== *)

Section SentimentClassifier.
Variable natural : Natural.sentiment_api.

(** The thresholds of the classifier, for a score that is a number. *)
Lemma label_of_thresholds (score : Q) :
  (label_of (Some score) = positive <-> (1 # 10 < score)%Q)
  /\ (label_of (Some score) = negative <-> (score < - (1 # 10))%Q)
  /\ (label_of (Some score) = neutral
      <-> (- (1 # 10) <= score)%Q /\ (score <= 1 # 10)%Q).
Proof.
  unfold label_of.
  destruct (Qlt_le_dec (1 # 10) score) as [Hp|Hp];
    [|destruct (Qlt_le_dec score (- (1 # 10))) as [Hn|Hn]].
  - repeat split; try discriminate; try tauto.
    + intros H. exfalso. apply (Qlt_irrefl score).
      eapply Qlt_trans; [exact H|]. eapply Qlt_trans; [|exact Hp]. reflexivity.
    + intros [_ H]. exfalso. eapply Qlt_not_le; eassumption.
  - repeat split; try discriminate; try tauto.
    + intros H. exfalso. eapply Qlt_not_le; eassumption.
    + intros [H _]. exfalso. eapply Qlt_not_le; eassumption.
  - repeat split; try discriminate; try tauto.
    + intros H. exfalso. eapply Qlt_not_le; eassumption.
    + intros H. exfalso. eapply Qlt_not_le; eassumption.
Qed.

(** The call [natural.WordTokenizer()] has no [new]: whatever the kind of
    the constructor, no tokenizer comes out of it and reading [.tokenize]
    throws, before the description is looked at. *)
Lemma analyzeSentiment_body_throws (description : value) :
  exists e, analyzeSentiment_body natural description = Throw e.
Proof.
  unfold analyzeSentiment_body.
  destruct (Natural.new_SentimentAnalyzer natural) as [[]|e]; simpl; [|eauto].
  destruct (Natural.WordTokenizer_kind natural); simpl; eauto.
Qed.

Lemma analyzeSentiment_always_neutral (description : value) :
  analyzeSentiment natural description = Fulfilled neutral.
Proof.
  unfold analyzeSentiment.
  destruct (analyzeSentiment_body_throws description) as [e ->]. reflexivity.
Qed.

(** C3: on every input the promise of [analyzeSentiment] is fulfilled with
    one of the three labels; an exception inside the body, and an empty or
    non-string description, give [neutral]. *)
Theorem analyzeSentiment_total (description : value) :
  (exists label,
      analyzeSentiment natural description = Fulfilled label
      /\ (label = positive \/ label = negative \/ label = neutral))
  /\ (forall e,
        analyzeSentiment_body natural description = Throw e ->
        analyzeSentiment natural description = Fulfilled neutral)
  /\ (is_string description = false \/ description = VStr EmptyString ->
      analyzeSentiment natural description = Fulfilled neutral).
Proof.
  split; [|split].
  - unfold analyzeSentiment, async_try_catch.
    destruct (analyzeSentiment_body natural description) as [label|e].
    + exists label. split; [reflexivity|]. destruct label; tauto.
    + exists neutral. tauto.
  - intros e H. unfold analyzeSentiment. now rewrite H.
  - intros _. apply analyzeSentiment_always_neutral.
Qed.

(** C4, at its input: the classifier answers [neutral], not [positive],
    whatever score the lexicon would give. *)
Theorem analyzeSentiment_scenario3 :
  analyzeSentiment natural
    (VStr "This is absolutely amazing and wonderful, I love it so much!")
  = Fulfilled neutral
  /\ Fulfilled neutral <> Fulfilled positive.
Proof.
  split; [apply analyzeSentiment_always_neutral|discriminate].
Qed.

End SentimentClassifier.

Lemma analyzeSentiment_total_witness :
  analyzeSentiment
    {| Natural.WordTokenizer_kind := Natural.ClassConstructor;
       Natural.new_SentimentAnalyzer := Normal tt;
       Natural.getSentiment := fun _ => Normal None |}
    VUndefined
  = Fulfilled neutral.
Proof.
  apply (proj2 (proj2 (analyzeSentiment_total
                         {| Natural.WordTokenizer_kind := Natural.ClassConstructor;
                            Natural.new_SentimentAnalyzer := Normal tt;
                            Natural.getSentiment := fun _ => Normal None |}
                         VUndefined))).
  left. reflexivity.
Defined.

(* ===================================================================== *)
(** ** Key-Phrase Extractor *)
(* ===================================================================== *)

Lemma ngram_step_app (words acc : list string) (i : nat) :
  ngram_step words acc i = acc ++ ngram_step words [] i.
Proof.
  unfold ngram_step.
  destruct (Z.of_nat i <? Z.of_nat (length words) - 2)%Z;
    [destruct (Nat.ltb 8 _)|];
    destruct (Nat.ltb 5 _); simpl;
    rewrite <- ?app_assoc, ?app_nil_r; reflexivity.
Qed.

Lemma ngram_fold_app (words : list string) (indices : list nat) (acc : list string) :
  fold_left (ngram_step words) indices acc
  = acc ++ flat_map (ngram_step words []) indices.
Proof.
  revert acc. induction indices as [|i indices IH]; intros acc; simpl.
  - now rewrite app_nil_r.
  - rewrite IH, (ngram_step_app words acc i). now rewrite app_assoc.
Qed.

(** The phrases of a sentence go after those already collected. *)
Lemma ngram_loop_app (words acc : list string) :
  ngram_loop words acc = acc ++ ngram_loop words [].
Proof. unfold ngram_loop. now rewrite ngram_fold_app, (ngram_fold_app words _ []). Qed.

Lemma ngram_step_In (words : list string) (i : nat) (p : string) :
  In p (ngram_step words [] i) <->
  (i + 2 < length words /\ p = trigram_at words i /\ 8 < String.length p)
  \/ (p = bigram_at words i /\ 5 < String.length p).
Proof.
  unfold ngram_step.
  fold (trigram_at words i). fold (bigram_at words i).
  generalize (trigram_at words i) (bigram_at words i). intros t b.
  destruct (Z.ltb_spec (Z.of_nat i) (Z.of_nat (length words) - 2)) as [Hi|Hi];
    [destruct (Nat.ltb_spec 8 (String.length t)) as [H8|H8]|];
    destruct (Nat.ltb_spec 5 (String.length b)) as [H5|H5];
    cbn [In app]; split.
  all: try (intros H; repeat (destruct H as [H|H]); subst; try contradiction;
            first [ left; repeat split; (lia || assumption || reflexivity)
                  | right; repeat split; (assumption || reflexivity) ]).
  all: intros [[Hb [-> Hl]]|[-> Hl]]; try lia; auto.
Qed.

Lemma ngram_step_spec (words : list string) (i : nat) :
  i + 1 < length words -> ngram_step words [] i = ngrams_at words i.
Proof.
  intros Hi. unfold ngram_step, ngrams_at.
  fold (trigram_at words i). fold (bigram_at words i).
  destruct (Z.ltb_spec (Z.of_nat i) (Z.of_nat (length words) - 2));
    destruct (Nat.ltb_spec (i + 2) (length words)); try lia;
    destruct (Nat.ltb_spec (i + 1) (length words)); try lia;
    cbn [andb];
    [destruct (Nat.ltb 8 (String.length (trigram_at words i)))|];
    destruct (Nat.ltb 5 (String.length (bigram_at words i))); reflexivity.
Qed.

Lemma ngrams_at_out_of_bounds (words : list string) (i : nat) :
  length words <= i + 1 -> ngrams_at words i = [].
Proof.
  intros Hi. unfold ngrams_at.
  destruct (Nat.ltb_spec (i + 2) (length words)); try lia.
  destruct (Nat.ltb_spec (i + 1) (length words)); try lia.
  reflexivity.
Qed.

Lemma flat_map_nil {A B : Type} (f : A -> list B) (l : list A) :
  (forall x, In x l -> f x = []) -> flat_map f l = [].
Proof.
  induction l as [|x l IH]; intros H; simpl; [reflexivity|].
  rewrite (H x (or_introl eq_refl)). apply IH. intros y Hy. apply H. now right.
Qed.

Lemma flat_map_agree {A B : Type} (f g : A -> list B) (l : list A) :
  (forall x, In x l -> f x = g x) -> flat_map f l = flat_map g l.
Proof.
  induction l as [|x l IH]; intros H; simpl; [reflexivity|].
  rewrite (H x (or_introl eq_refl)). f_equal. apply IH.
  intros y Hy. apply H. now right.
Qed.

(** The loop computes the candidate pool, index by index. *)
Lemma ngram_loop_spec (words : list string) :
  ngram_loop words [] = candidate_pool words.
Proof.
  unfold ngram_loop, candidate_pool. rewrite ngram_fold_app. simpl.
  set (n := Z.to_nat (Z.of_nat (length words) - 1)).
  replace (seq 0 (length words)) with (seq 0 n ++ seq n (length words - n))
    by (rewrite <- seq_app; f_equal; lia).
  rewrite flat_map_app.
  rewrite (flat_map_nil (ngrams_at words) (seq n (length words - n))).
  - rewrite app_nil_r. apply flat_map_agree. intros i Hi.
    apply in_seq in Hi. apply ngram_step_spec. lia.
  - intros i Hi. apply in_seq in Hi. apply ngrams_at_out_of_bounds. lia.
Qed.



(** Both the trigram and its leading bigram in the pool of three words. *)
Example ngram_pool_overlap :
  ngram_loop ["home"; "workout"; "routine"] []
  = ["home workout routine"; "home workout"; "workout routine"].
Proof. reflexivity. Qed.

Section KeyPhraseExtractor.
Variable stopwords : list string.

(** The pool of the whole description: the pools of its sentences, in order. *)
Lemma phrases_of_flat_map (sentences : list string) :
  phrases_of stopwords sentences
  = flat_map (fun sentence => ngram_loop (words_of stopwords sentence) []) sentences.
Proof.
  unfold phrases_of.
  assert (H : forall acc,
             fold_left (fun phrases sentence =>
                          ngram_loop (words_of stopwords sentence) phrases)
                       sentences acc
             = acc ++ flat_map (fun sentence =>
                                  ngram_loop (words_of stopwords sentence) [])
                               sentences).
  { induction sentences as [|s sentences IH]; intros acc; simpl.
    - now rewrite app_nil_r.
    - rewrite IH, (ngram_loop_app _ acc). now rewrite app_assoc. }
  apply H.
Qed.

(** A phrase is in the pool of the description exactly when it is in the
    candidate pool of one of its sentences. *)
Lemma phrases_of_pool (sentences : list string) (p : string) :
  In p (phrases_of stopwords sentences) <->
  exists sentence,
    In sentence sentences /\ In p (candidate_pool (words_of stopwords sentence)).
Proof.
  rewrite phrases_of_flat_map, in_flat_map.
  split; intros [sentence [Hs Hp]]; exists sentence; split; try assumption.
  - now rewrite <- ngram_loop_spec.
  - now rewrite ngram_loop_spec.
Qed.

Lemma extractKeyPhrases_body_string (text : string) (maxPhrases : Z) :
  extractKeyPhrases_body stopwords (VStr text) maxPhrases
  = Normal (top_keys (fold_left count_one
                                (phrases_of stopwords (sentences_of text)) [])
                     maxPhrases).
Proof. reflexivity. Qed.

Lemma extractKeyPhrases_body_not_string (description : value) (maxPhrases : Z) :
  is_string description = false ->
  exists e, extractKeyPhrases_body stopwords description maxPhrases = Throw e.
Proof.
  intros H. unfold extractKeyPhrases_body.
  destruct description; simpl in *; try discriminate; eauto.
Qed.

(** C7: on every input the promise of the Key-Phrase Extractor is
    fulfilled, with at most [maxPhrases] phrases for every phrase count
    [maxPhrases], that is, every integer that is not negative; an exception
    inside the body gives the empty sequence, and so does the empty
    description. *)
Theorem extractKeyPhrases_bounded (description : value) (maxPhrases : Z) :
  (exists phrases,
      extractKeyPhrases stopwords description maxPhrases = Fulfilled phrases
      /\ ((0 <= maxPhrases)%Z -> (Z.of_nat (length phrases) <= maxPhrases)%Z))
  /\ (forall e,
        extractKeyPhrases_body stopwords description maxPhrases = Throw e ->
        extractKeyPhrases stopwords description maxPhrases = Fulfilled [])
  /\ extractKeyPhrases stopwords (VStr EmptyString) maxPhrases = Fulfilled [].
Proof.
  split; [|split].
  - unfold extractKeyPhrases.
    destruct description as [ | |b|n| |text|name| |elems];
      try (exists []; split; [reflexivity|simpl; lia]).
    rewrite extractKeyPhrases_body_string. simpl.
    eexists. split; [reflexivity|]. apply top_keys_length.
  - intros e H. unfold extractKeyPhrases. now rewrite H.
  - unfold extractKeyPhrases. rewrite extractKeyPhrases_body_string.
    change (sentences_of EmptyString) with (@nil string).
    unfold top_keys. simpl.
    unfold slice0. simpl. now rewrite firstn_nil.
Qed.

End KeyPhraseExtractor.

Lemma extractKeyPhrases_bounded_witness :
  exists phrases,
    extractKeyPhrases Natural.stopwords
      (VStr "Home workout routine. Home workout routine! Try home workout routine?") 5
    = Fulfilled phrases
    /\ (Z.of_nat (length phrases) <= 5)%Z.
Proof.
  destruct (proj1 (extractKeyPhrases_bounded Natural.stopwords
              (VStr "Home workout routine. Home workout routine! Try home workout routine?") 5))
    as [phrases [Heq Hlen]].
  exists phrases. split; [assumption|]. apply Hlen. lia.
Defined.

(** Outside the phrase counts: a negative [maxPhrases] is an end index that
    [slice] counts from the end of the array; [slice(0, -1)] drops the last
    phrase only. *)
Lemma extractKeyPhrases_negative_maxPhrases :
  extractKeyPhrases Natural.stopwords (VStr "home workout routine") (-1)
  = Fulfilled ["home workout routine"; "home workout"]
  /\ (-1 < Z.of_nat (length ["home workout routine"; "home workout"]))%Z.
Proof. split; [vm_compute; reflexivity|simpl; lia]. Qed.

(** The handler of [extractKeyPhrases] is reached: [undefined.split] throws. *)
Example extractKeyPhrases_caught :
  extractKeyPhrases_body Natural.stopwords VUndefined 5
  = Throw (TypeError "Cannot read properties of undefined")
  /\ extractKeyPhrases Natural.stopwords VUndefined 5 = Fulfilled [].
Proof. split; reflexivity. Qed.

(** The three-sentence scenario: the repeated phrases come first. *)
Example extractKeyPhrases_scenario5 :
  extractKeyPhrases Natural.stopwords
    (VStr "Home workout routine. Home workout routine! Try home workout routine?") 5
  = Fulfilled ["home workout routine"; "home workout"; "workout routine";
               "try home workout"; "try home"].
Proof. vm_compute. reflexivity. Qed.

(* ===================================================================== *)
(** ** Sorting by a numeric key, largest first *)
(* ===================================================================== *)

Lemma filter_none {A : Type} (p : A -> bool) (l : list A) :
  (forall x, In x l -> p x = false) -> filter p l = [].
Proof.
  induction l as [|x l IH]; intros H; simpl; [reflexivity|].
  rewrite (H x (or_introl eq_refl)). apply IH. intros y Hy. apply H. now right.
Qed.

Lemma StronglySorted_app_iff {A : Type} (R : A -> A -> Prop) (l1 l2 : list A) :
  StronglySorted R (l1 ++ l2) <->
  StronglySorted R l1 /\ StronglySorted R l2
  /\ (forall a b, In a l1 -> In b l2 -> R a b).
Proof.
  induction l1 as [|x l1 IH]; simpl.
  - split.
    + intros H. repeat split; [constructor|assumption|]. intros a b [].
    + intros [_ [H _]]. exact H.
  - split.
    + intros H. inversion H as [|? ? Hs Hx]; subst.
      apply IH in Hs as [H1 [H2 H12]].
      rewrite Forall_app in Hx. destruct Hx as [Hx1 Hx2].
      repeat split; [constructor; assumption|assumption|].
      intros a b [<-|Ha] Hb; [|auto].
      rewrite Forall_forall in Hx2. auto.
    + intros [H1 [H2 H12]]. inversion H1 as [|? ? Hs Hx]; subst.
      constructor.
      * apply IH. repeat split; auto.
      * rewrite Forall_app. split; [assumption|].
        apply Forall_forall. intros b Hb. apply H12; auto.
Qed.

(** An array around its element at index [n]. *)
Lemma split_at {A : Type} (n : nat) (l : list A) (d : A) :
  n < length l ->
  exists before middle after,
    l = before ++ middle :: after
    /\ length before = n
    /\ firstn n l = before
    /\ nth n l d = middle
    /\ skipn (S n) l = after.
Proof.
  intros H. exists (firstn n l), (nth n l d), (skipn (S n) l).
  repeat split; [|rewrite length_firstn; lia].
  revert l H. induction n as [|n IH]; intros [|x l] H; simpl in H; try lia.
  - reflexivity.
  - cbn [firstn nth skipn app]. f_equal. apply IH. lia.
Qed.

Section KeySort.
Context {A : Type}.
Variable key : A -> Z.
Variable cmp : A -> A -> Z.
Hypothesis cmp_key : forall x y, cmp x y = (key y - key x)%Z.

(** A run that is not descending is in descending order of the key. *)
Lemma run_ascending (previous : A) (rest : list A) :
  Sorted (fun a b => (key b <= key a)%Z)
         (previous :: firstn (run_rest cmp false previous rest) rest).
Proof.
  revert previous. induction rest as [|current rest IH]; intros previous.
  - repeat constructor.
  - cbn [run_rest]. rewrite cmp_key.
    destruct (Z.ltb_spec (key previous - key current) 0) as [Hlt|Hge].
    + repeat constructor.
    + cbn [firstn]. constructor; [apply IH|]. constructor. lia.
Qed.

(** A descending run is in strictly ascending order of the key. *)
Lemma run_descending (previous : A) (rest : list A) :
  Sorted (fun a b => (key a < key b)%Z)
         (previous :: firstn (run_rest cmp true previous rest) rest).
Proof.
  revert previous. induction rest as [|current rest IH]; intros previous.
  - repeat constructor.
  - cbn [run_rest]. rewrite cmp_key.
    destruct (Z.leb_spec 0 (key previous - key current)) as [Hge|Hlt].
    + repeat constructor.
    + cbn [firstn]. constructor; [apply IH|]. constructor. lia.
Qed.

Lemma rev_strictly_ascending (l : list A) :
  StronglySorted (fun a b => (key a < key b)%Z) l ->
  StronglySorted (fun a b => (key b <= key a)%Z) (rev l)
  /\ forall k, filter (fun y => (key y =? k)%Z) (rev l)
               = filter (fun y => (key y =? k)%Z) l.
Proof.
  induction 1 as [|x l Hl [IHs IHf] Hx]; [split; [constructor|reflexivity]|].
  cbn [rev]. split.
  - apply StronglySorted_app_iff. repeat split; [assumption|repeat constructor|].
    intros a b Ha [<-|[]]. apply in_rev in Ha.
    rewrite Forall_forall in Hx. specialize (Hx a Ha). lia.
  - intros k. rewrite filter_app, IHf. cbn [filter].
    destruct (Z.eqb_spec (key x) k) as [Hk|Hk]; [|apply app_nil_r].
    rewrite filter_none; [reflexivity|].
    intros z Hz. apply Z.eqb_neq.
    rewrite Forall_forall in Hx. specialize (Hx z Hz). lia.
Qed.

(** [CountAndMakeRun] leaves a sorted run at the front and moves no element
    past another one with the same key. *)
Lemma count_and_make_run_sorted (arr : list A) :
  let made := fst (count_and_make_run cmp arr) in
  let runLength := snd (count_and_make_run cmp arr) in
  StronglySorted (fun a b => (key b <= key a)%Z) (firstn runLength made)
  /\ forall k, filter (fun y => (key y =? k)%Z) made
               = filter (fun y => (key y =? k)%Z) arr.
Proof.
  cbv zeta.
  destruct arr as [|first [|second rest]];
    try (split; [cbn; repeat constructor|reflexivity]).
  unfold count_and_make_run. rewrite cmp_key.
  destruct (Z.ltb_spec (key first - key second) 0) as [Hlt|Hge]; cbn [fst snd].
  - set (runLength := 2 + run_rest cmp true second rest).
    assert (Hrun : StronglySorted (fun a b => (key a < key b)%Z)
                                  (firstn runLength (first :: second :: rest))).
    { apply Sorted_StronglySorted; [intros x y z; lia|].
      unfold runLength. cbn [Nat.add firstn].
      constructor; [apply run_descending|]. constructor. lia. }
    destruct (rev_strictly_ascending _ Hrun) as [Hs Hf]. split.
    + rewrite firstn_app.
      assert (Hlen : length (rev (firstn runLength (first :: second :: rest)))
                     = runLength).
      { rewrite length_rev, length_firstn.
        pose proof (run_rest_le cmp true second rest).
        unfold runLength. cbn [length]. lia. }
      rewrite Hlen, Nat.sub_diag, firstn_O, app_nil_r.
      rewrite <- Hlen at 1. now rewrite firstn_all.
    + intros k. rewrite filter_app, Hf, <- filter_app. now rewrite firstn_skipn.
  - split; [|reflexivity].
    apply Sorted_StronglySorted; [intros x y z; lia|].
    cbn [Nat.add firstn].
    constructor; [apply run_ascending|]. constructor. lia.
Qed.

Lemma insertion_point_eq (steps : nat) (pivot : A) (part : list A) :
  part <> [] ->
  insertion_point cmp (S steps) pivot part
  = if (cmp pivot (nth (Nat.div2 (length part)) part pivot) <? 0)%Z
    then insertion_point cmp steps pivot (firstn (Nat.div2 (length part)) part)
    else S (Nat.div2 (length part))
         + insertion_point cmp steps pivot (skipn (S (Nat.div2 (length part))) part).
Proof. destruct part; [congruence|reflexivity]. Qed.

(** The binary search in a sorted part: the elements that stay before the
    pivot are those whose key is not below its key. *)
Lemma insertion_point_spec (steps : nat) (pivot : A) (part : list A) :
  StronglySorted (fun a b => (key b <= key a)%Z) part ->
  length part <= steps ->
  let left := insertion_point cmp steps pivot part in
  left <= length part
  /\ Forall (fun e => (key pivot <= key e)%Z) (firstn left part)
  /\ Forall (fun e => (key e < key pivot)%Z) (skipn left part).
Proof.
  cbv zeta. revert part. induction steps as [|steps IH]; intros part Hs Hlen.
  - destruct part; [|simpl in Hlen; lia]. simpl. repeat split; constructor.
  - destruct part as [|x part'] eqn:Epart;
      [simpl; repeat split; constructor|].
    rewrite <- Epart in *.
    assert (Hne : part <> []) by (rewrite Epart; discriminate).
    rewrite (insertion_point_eq steps pivot part Hne).
    assert (Hmid : Nat.div2 (length part) < length part)
      by (apply Nat.lt_div2; rewrite Epart; simpl; lia).
    destruct (split_at (Nat.div2 (length part)) part pivot Hmid)
      as [before [middle [after [Hpart [Hbefore [-> [-> ->]]]]]]].
    rewrite Hpart in Hs.
    apply StronglySorted_app_iff in Hs as [Hs1 [Hs2 Hcross]].
    apply StronglySorted_inv in Hs2 as [Hs3 Hafter].
    rewrite cmp_key.
    assert (Hlen' : length part = length before + S (length after))
      by (rewrite Hpart, length_app; reflexivity).
    destruct (Z.ltb_spec (key middle - key pivot) 0) as [Hlt|Hge].
    + destruct (IH before Hs1 ltac:(lia)) as [Hk [Hf Hsk]].
      set (k := insertion_point cmp steps pivot before) in *.
      split; [lia|]. rewrite Hpart. split.
      * rewrite firstn_app. replace (k - length before) with 0 by lia.
        now rewrite firstn_O, app_nil_r.
      * rewrite skipn_app. replace (k - length before) with 0 by lia.
        cbn [skipn]. rewrite Forall_app. split; [assumption|].
        constructor; [lia|].
        eapply Forall_impl; [|exact Hafter]. cbv beta. intros e He. lia.
    + destruct (IH after Hs3 ltac:(lia)) as [Hk [Hf Hsk]].
      set (k := insertion_point cmp steps pivot after) in *.
      rewrite <- Hbefore.
      split; [lia|]. rewrite Hpart. split.
      * rewrite firstn_app, firstn_all2 by lia.
        replace (S (length before) + k - length before) with (S k) by lia.
        cbn [firstn]. rewrite Forall_app. split.
        -- apply Forall_forall. intros e He.
           specialize (Hcross e middle He (or_introl eq_refl)). cbv beta in Hcross. lia.
        -- constructor; [lia|assumption].
      * rewrite skipn_app, skipn_all2 by lia.
        replace (S (length before) + k - length before) with (S k) by lia.
        cbn [skipn app]. assumption.
Qed.

(** Putting the pivot at the index of the binary search keeps the array
    sorted and the pivot behind the elements with its key. *)
Lemma insert_sorted (pivot : A) (sorted : list A) :
  StronglySorted (fun a b => (key b <= key a)%Z) sorted ->
  let left := insertion_point cmp (length sorted) pivot sorted in
  StronglySorted (fun a b => (key b <= key a)%Z)
                 (firstn left sorted ++ pivot :: skipn left sorted)
  /\ forall k,
       filter (fun y => (key y =? k)%Z) (firstn left sorted ++ pivot :: skipn left sorted)
       = filter (fun y => (key y =? k)%Z) sorted
         ++ filter (fun y => (key y =? k)%Z) [pivot].
Proof.
  intros Hs left.
  destruct (insertion_point_spec (length sorted) pivot sorted Hs (le_n _))
    as [_ [Hbefore Hafter]].
  fold left in Hbefore, Hafter.
  pose proof Hs as Hs'. rewrite <- (firstn_skipn left sorted) in Hs'.
  apply StronglySorted_app_iff in Hs' as [H1 [H2 H12]]. split.
  - apply StronglySorted_app_iff. repeat split; [assumption| |].
    + constructor; [assumption|].
      eapply Forall_impl; [|exact Hafter]. cbv beta. intros e He. lia.
    + intros a b Ha [<-|Hb]; [|auto].
      rewrite Forall_forall in Hbefore. apply Hbefore, Ha.
  - intros k. rewrite <- (firstn_skipn left sorted) at 3.
    rewrite !filter_app, <- app_assoc. f_equal. cbn [filter].
    destruct (Z.eqb_spec (key pivot) k) as [Hk|Hk]; [|now rewrite app_nil_r].
    rewrite filter_none; [reflexivity|].
    intros z Hz. apply Z.eqb_neq.
    rewrite Forall_forall in Hafter. specialize (Hafter z Hz). lia.
Qed.

Lemma binary_insertion_sorted (sorted rest : list A) :
  StronglySorted (fun a b => (key b <= key a)%Z) sorted ->
  StronglySorted (fun a b => (key b <= key a)%Z) (binary_insertion cmp sorted rest)
  /\ forall k,
       filter (fun y => (key y =? k)%Z) (binary_insertion cmp sorted rest)
       = filter (fun y => (key y =? k)%Z) (sorted ++ rest).
Proof.
  revert sorted. induction rest as [|pivot rest IH]; intros sorted Hs.
  - cbn [binary_insertion]. rewrite app_nil_r. split; [assumption|reflexivity].
  - cbn [binary_insertion].
    destruct (insert_sorted pivot sorted Hs) as [Hs' Hf]. cbv zeta in Hs', Hf.
    destruct (IH _ Hs') as [IHs IHf]. split; [assumption|].
    intros k. rewrite IHf, filter_app, Hf.
    rewrite (filter_app _ sorted (pivot :: rest)), <- app_assoc. f_equal.
    cbn [filter app]. destruct (key pivot =? k)%Z; reflexivity.
Qed.

(** The result is in descending order of the key. *)
Lemma sort_sorted (l : list A) :
  StronglySorted (fun a b => (key b <= key a)%Z) (sort cmp l).
Proof.
  unfold sort. destruct (count_and_make_run_sorted l) as [Hs _].
  destruct (count_and_make_run cmp l) as [made runLength]. cbn [fst snd] in Hs.
  now apply binary_insertion_sorted.
Qed.

(** Elements with the same key keep their order. *)
Lemma sort_stable (k : Z) (l : list A) :
  filter (fun y => (key y =? k)%Z) (sort cmp l)
  = filter (fun y => (key y =? k)%Z) l.
Proof.
  unfold sort. destruct (count_and_make_run_sorted l) as [Hs Hf].
  destruct (count_and_make_run cmp l) as [made runLength]. cbn [fst snd] in Hs, Hf.
  destruct (binary_insertion_sorted _ (skipn runLength made) Hs) as [_ H].
  now rewrite H, firstn_skipn.
Qed.

End KeySort.

Section SortMap.
Context {A B : Type}.
Variable g : A -> B.
Variable cmpA : A -> A -> Z.
Variable cmpB : B -> B -> Z.
Hypothesis Hg : forall x y, cmpB (g x) (g y) = cmpA x y.

Lemma run_rest_map (descending : bool) (previous : A) (rest : list A) :
  run_rest cmpB descending (g previous) (map g rest)
  = run_rest cmpA descending previous rest.
Proof.
  revert previous. induction rest as [|current rest IH]; intros previous;
    [reflexivity|].
  cbn [map run_rest]. rewrite Hg, IH. reflexivity.
Qed.

Lemma insertion_point_map (steps : nat) (pivot : A) (part : list A) :
  insertion_point cmpB steps (g pivot) (map g part)
  = insertion_point cmpA steps pivot part.
Proof.
  revert part. induction steps as [|steps IH]; intros part; [reflexivity|].
  destruct part as [|x part'] eqn:Epart; [reflexivity|].
  rewrite <- Epart.
  assert (Hne : part <> []) by (rewrite Epart; discriminate).
  assert (Hne' : map g part <> []) by (rewrite Epart; discriminate).
  rewrite (insertion_point_eq cmpB steps (g pivot) (map g part) Hne').
  rewrite (insertion_point_eq cmpA steps pivot part Hne).
  rewrite length_map, (map_nth g), Hg, firstn_map, skipn_map, !IH.
  reflexivity.
Qed.

Lemma binary_insertion_map (sorted rest : list A) :
  binary_insertion cmpB (map g sorted) (map g rest)
  = map g (binary_insertion cmpA sorted rest).
Proof.
  revert sorted. induction rest as [|pivot rest IH]; intros sorted; [reflexivity|].
  cbn [map binary_insertion].
  rewrite length_map, insertion_point_map, firstn_map, skipn_map.
  change (g pivot :: map g (skipn (insertion_point cmpA (length sorted) pivot sorted) sorted))
    with (map g (pivot :: skipn (insertion_point cmpA (length sorted) pivot sorted) sorted)).
  rewrite <- map_app. apply IH.
Qed.

Lemma count_and_make_run_map (arr : list A) :
  count_and_make_run cmpB (map g arr)
  = (map g (fst (count_and_make_run cmpA arr)), snd (count_and_make_run cmpA arr)).
Proof.
  destruct arr as [|first [|second rest]]; try reflexivity.
  change (map g (first :: second :: rest))
    with (g first :: g second :: map g rest).
  unfold count_and_make_run. rewrite Hg, run_rest_map.
  change (g first :: g second :: map g rest)
    with (map g (first :: second :: rest)).
  destruct (cmpA second first <? 0)%Z; cbn [fst snd]; [|reflexivity].
  now rewrite firstn_map, skipn_map, <- map_rev, <- map_app.
Qed.

End SortMap.

Lemma sort_map {A B : Type} (g : A -> B) (cmpA : A -> A -> Z) (cmpB : B -> B -> Z)
      (l : list A) :
  (forall x y, cmpB (g x) (g y) = cmpA x y) ->
  sort cmpB (map g l) = map g (sort cmpA l).
Proof.
  intros Hg. unfold sort. rewrite (count_and_make_run_map g cmpA cmpB Hg).
  destruct (count_and_make_run cmpA l) as [made runLength]. cbn [fst snd].
  rewrite firstn_map, skipn_map. now apply binary_insertion_map.
Qed.

(* ===================================================================== *)
(** ** Category Suggester *)
(* ===================================================================== *)

Lemma StronglySorted_weaken {A : Type} (R R' : A -> A -> Prop) (l : list A) :
  (forall a b, R a b -> R' a b) -> StronglySorted R l -> StronglySorted R' l.
Proof.
  intros HR. induction 1 as [|x l Hl IH Hx]; constructor; [assumption|].
  eapply Forall_impl; [|exact Hx]. auto.
Qed.

(** A list that [nodup] leaves alone has no duplicates. *)
Lemma NoDup_by_nodup (l : list string) : nodup string_dec l = l -> NoDup l.
Proof. intros H. rewrite <- H. apply NoDup_nodup. Qed.

Lemma update_fresh (o : object) (k : string) (v : value) :
  ~ In k (map fst o) -> update o k v = o ++ [(k, v)].
Proof.
  induction o as [|[k' v'] o IH]; simpl; intros H; [reflexivity|].
  destruct (String.eqb_spec k k') as [->|Hne]; [tauto|].
  rewrite IH; [reflexivity|tauto].
Qed.

(** The inner loop counts the keywords that occur in the text. *)
Lemma keyword_score_count (cleanText : string) (keywords : list string) :
  keyword_score cleanText keywords = Z.of_nat (score cleanText keywords).
Proof.
  unfold keyword_score, score.
  assert (H : forall acc,
             fold_left (fun s keyword =>
                          if includes cleanText keyword then (s + 1)%Z else s)
                       keywords acc
             = (acc + Z.of_nat (length (filter (fun keyword =>
                                                  includes cleanText keyword)
                                               keywords)))%Z).
  { induction keywords as [|kw keywords IH]; intros acc; simpl; [lia|].
    rewrite IH. destruct (includes cleanText kw); simpl length; lia. }
  now rewrite H.
Qed.

(** Filling an object from a table with distinct keys: the entries that
    pass the test, in table order. *)
Lemma scores_fold (f : string * list string -> Z) (table : list (string * list string))
      (acc : object) :
  NoDup (map fst table) ->
  ~ In "__proto__" (map fst table) ->
  (forall k, In k (map fst table) -> ~ In k (map fst acc)) ->
  fold_left (fun categoryScores entry =>
               if (0 <? f entry)%Z
               then set categoryScores (fst entry) (VNum (f entry))
               else categoryScores)
            table acc
  = acc ++ map (fun entry => (fst entry, VNum (f entry)))
               (filter (fun entry => (0 <? f entry)%Z) table).
Proof.
  revert acc. induction table as [|e table IH]; intros acc Hnd Hproto Hfresh; simpl.
  - now rewrite app_nil_r.
  - simpl in Hnd, Hproto. inversion Hnd as [|? ? Hnot Hnd']; subst.
    destruct (0 <? f e)%Z.
    + unfold set. destruct (String.eqb_spec (fst e) "__proto__") as [E|_];
        [exfalso; apply Hproto; left; exact E|].
      rewrite update_fresh by (apply Hfresh; now left).
      rewrite IH; [now rewrite <- app_assoc|assumption|tauto|].
      intros k Hk. rewrite map_app, in_app_iff. simpl.
      intros [Hin|[<-|[]]]; [|contradiction].
      apply (Hfresh k); [now right|assumption].
    + apply IH; [assumption|tauto|].
      intros k Hk. apply Hfresh. now right.
Qed.

Lemma categoryScores_of_spec (blob : string) :
  categoryScores_of blob
  = map (fun entry => (fst entry, VNum (Z.of_nat (entry_score blob entry))))
        (scored_categories blob).
Proof.
  unfold categoryScores_of, scored_categories.
  change (entries CATEGORY_TAGS) with CATEGORY_TAGS.
  rewrite (scores_fold (fun entry => keyword_score blob (snd entry))).
  - rewrite app_nil_l.
    rewrite (filter_ext (fun entry => (0 <? keyword_score blob (snd entry))%Z)
                        (fun entry => Nat.ltb 0 (entry_score blob entry))).
    + apply map_ext. intros e. now rewrite keyword_score_count.
    + intros e. rewrite keyword_score_count. unfold entry_score.
      destruct (Nat.ltb_spec 0 (score blob (snd e)));
        destruct (Z.ltb_spec 0 (Z.of_nat (score blob (snd e)))); lia || reflexivity.
  - apply NoDup_by_nodup. vm_compute. reflexivity.
  - intros H. simpl in H.
    repeat (destruct H as [H|H]; [discriminate|]). contradiction.
  - intros k _ [].
Qed.

Lemma category_names_no_index (table : list (string * list string)) :
  incl table CATEGORY_TAGS ->
  forall f : string * list string -> value,
    forallb (fun e => negb (is_array_index (fst e)))
            (map (fun entry => (fst entry, f entry)) table) = true.
Proof.
  intros Hincl f. apply forallb_forall. intros e He.
  apply in_map_iff in He as [entry [<- He]]. simpl.
  assert (Hall : forallb (fun entry => negb (is_array_index (fst entry)))
                         CATEGORY_TAGS = true) by (vm_compute; reflexivity).
  rewrite forallb_forall in Hall. apply Hall, Hincl, He.
Qed.

(** The ranking of the Category Suggester as one expression. *)
Lemma suggestCategories_eq (description : string) (tags : list string) :
  let blob := blob_of description tags in
  suggestCategories description tags
  = Fulfilled
      (firstn 3
         (map fst
            (sort (fun a b => (Z.of_nat (entry_score blob b)
                               - Z.of_nat (entry_score blob a))%Z)
                  (scored_categories blob)))).
Proof.
  cbv zeta. unfold suggestCategories, suggestCategories_body, async_try_catch.
  fold (blob_of description tags). f_equal.
  unfold top_keys. rewrite categoryScores_of_spec.
  rewrite entries_no_index
    by (apply category_names_no_index; unfold scored_categories;
        intros e He; now apply filter_In in He).
  rewrite (sort_map _ (fun a b => (Z.of_nat (entry_score (blob_of description tags) b)
                                   - Z.of_nat (entry_score (blob_of description tags) a))%Z))
    by reflexivity.
  change 3%Z with (Z.of_nat 3). rewrite slice0_firstn.
  rewrite <- firstn_map, map_map. simpl. reflexivity.
Qed.

(** C5: the Category Suggester ranks the categories with a positive score
    (the number of the category's keywords that occur in the lowercased
    description-plus-tags blob) by descending score, categories of equal
    score in table order, and returns the names of the first three; there
    are 18 categories, no keyword is listed twice in a category, and every
    returned name is one of the 18. *)
Theorem suggestCategories_ranking (description : string) (tags : list string) :
  let blob := blob_of description tags in
  exists ranked : list (string * list string),
    suggestCategories description tags = Fulfilled (firstn 3 (map fst ranked))
    /\ Permutation ranked (scored_categories blob)
    /\ StronglySorted (fun a b => entry_score blob b <= entry_score blob a) ranked
    /\ (forall k,
          filter (fun e => Nat.eqb (entry_score blob e) k) ranked
          = filter (fun e => Nat.eqb (entry_score blob e) k) (scored_categories blob))
    /\ length (firstn 3 (map fst ranked)) <= 3
    /\ Forall (fun name => In name category_names) (firstn 3 (map fst ranked))
    /\ length category_names = 18
    /\ Forall (fun entry => NoDup (snd entry)) CATEGORY_TAGS.
Proof.
  intros blob.
  set (key := fun e : string * list string => Z.of_nat (entry_score blob e)).
  set (cmp := fun a b : string * list string => (key b - key a)%Z).
  exists (sort cmp (scored_categories blob)).
  assert (Hperm : Permutation (sort cmp (scored_categories blob)) (scored_categories blob))
    by apply sort_perm.
  repeat split.
  - apply suggestCategories_eq.
  - exact Hperm.
  - eapply StronglySorted_weaken; [|apply (sort_sorted key cmp); reflexivity].
    unfold key. simpl. intros a b H. lia.
  - intros k.
    pose proof (sort_stable key cmp (fun x y => eq_refl) (Z.of_nat k)
                            (scored_categories blob)) as Hst.
    assert (Hext : forall e : string * list string,
               Nat.eqb (entry_score blob e) k = (key e =? Z.of_nat k)%Z).
    { intros e. unfold key.
      destruct (Nat.eqb_spec (entry_score blob e) k);
        destruct (Z.eqb_spec (Z.of_nat (entry_score blob e)) (Z.of_nat k));
        lia || reflexivity. }
    rewrite !(filter_ext _ _ Hext). exact Hst.
  - rewrite length_firstn. lia.
  - apply Forall_forall. intros name Hname.
    apply firstn_In_keeps in Hname.
    apply in_map_iff in Hname as [e [<- He]].
    apply (Permutation_in _ Hperm) in He.
    unfold scored_categories in He. apply filter_In in He as [He _].
    unfold category_names. now apply in_map.
  - apply Forall_forall. intros e He. apply NoDup_by_nodup.
    assert (Hall : forallb (fun entry =>
                     if list_eq_dec string_dec (nodup string_dec (snd entry)) (snd entry)
                     then true else false) CATEGORY_TAGS = true)
      by (vm_compute; reflexivity).
    rewrite forallb_forall in Hall. specialize (Hall e He).
    now destruct (list_eq_dec string_dec (nodup string_dec (snd e)) (snd e)).
Qed.

(** A description about cooking and travel with two tags. *)
Example suggestCategories_sample :
  suggestCategories "I love cooking food and travel" ["recipe"; "trip"]
  = Fulfilled ["food"; "travel"].
Proof. vm_compute. reflexivity. Qed.

(** The empty description: no category. *)
Example suggestCategories_empty :
  suggestCategories EmptyString [] = Fulfilled [].
Proof. vm_compute. reflexivity. Qed.

(* ===================================================================== *)
(** ** The frequency ranking of the Tag Generator *)
(* ===================================================================== *)

Lemma Set_of_snoc (arr : list string) (x : string) :
  Set_of (arr ++ [x]) = set_add (Set_of arr) x.
Proof. unfold Set_of. now rewrite fold_left_app. Qed.

Lemma wordFreq_snoc (tokens : list string) (token : string) :
  wordFreq_of (tokens ++ [token]) = count_one (wordFreq_of tokens) token.
Proof. unfold wordFreq_of. now rewrite fold_left_app. Qed.

Lemma frequency_snoc (tokens : list string) (token other : string) :
  frequency (tokens ++ [token]) other
  = frequency tokens other + (if other =? token then 1 else 0).
Proof.
  unfold frequency. rewrite count_occ_app. simpl.
  destruct (string_dec token other) as [->|Hne].
  - now rewrite String.eqb_refl.
  - destruct (String.eqb_spec other token); [congruence|reflexivity].
Qed.

Lemma assoc_map_key {V : Type} (g : string -> V) (keys : list string) (k : string) :
  assoc k (map (fun key => (key, g key)) keys)
  = if arr_includes keys k then Some (g k) else None.
Proof.
  unfold arr_includes. induction keys as [|key keys IH]; simpl; [reflexivity|].
  destruct (String.eqb_spec k key) as [->|Hne]; [reflexivity|exact IH].
Qed.

Lemma update_map_key (g : string -> value) (keys : list string) (k : string) (v : value) :
  NoDup keys -> In k keys ->
  update (map (fun key => (key, g key)) keys) k v
  = map (fun key => (key, if key =? k then v else g key)) keys.
Proof.
  induction keys as [|key keys IH]; intros Hnd Hin; simpl; [contradiction|].
  inversion Hnd as [|? ? Hnot Hnd']; subst.
  destruct (String.eqb_spec k key) as [->|Hne].
  - rewrite String.eqb_refl. f_equal.
    apply map_ext_in. intros u Hu.
    destruct (String.eqb_spec u key) as [->|_]; [contradiction|reflexivity].
  - destruct (String.eqb_spec key k) as [E|_]; [congruence|].
    f_equal. apply IH; [assumption|].
    destruct Hin as [E|Hin]; [congruence|assumption].
Qed.

(** Off the names [Object.prototype] defines, [wordFreq] holds each distinct
    token with its number of occurrences, in first-occurrence order. *)
Lemma wordFreq_of_spec (tokens : list string) :
  (forall token, In token tokens -> assoc token Object_prototype = None) ->
  wordFreq_of tokens
  = map (fun token => (token, VNum (Z.of_nat (frequency tokens token))))
        (Set_of tokens).
Proof.
  induction tokens as [|t p IH] using rev_ind; intros Hproto; [reflexivity|].
  assert (Hp : forall token, In token p -> assoc token Object_prototype = None)
    by (intros token H; apply Hproto, in_or_app; now left).
  assert (Ht : assoc t Object_prototype = None)
    by (apply Hproto, in_or_app; right; now left).
  assert (Hne : (t =? "__proto__") = false).
  { destruct (String.eqb_spec t "__proto__") as [->|]; [discriminate Ht|reflexivity]. }
  rewrite wordFreq_snoc, Set_of_snoc, (IH Hp).
  unfold count_one, set, get. rewrite Hne, assoc_map_key, Ht.
  unfold set_add. destruct (arr_includes (Set_of p) t) eqn:Hin.
  - apply arr_includes_In in Hin.
    assert (Hpos : 0 < frequency p t).
    { unfold frequency. apply count_occ_In. now apply Set_of_In. }
    unfold or_else. simpl truthy.
    destruct (Z.eqb_spec (Z.of_nat (frequency p t)) 0) as [E|_]; [lia|].
    simpl negb. cbv iota. simpl add_one.
    rewrite update_map_key by (assumption || apply Set_of_NoDup).
    apply map_ext. intros u. rewrite frequency_snoc.
    destruct (String.eqb_spec u t) as [->|_]; f_equal; f_equal; lia.
  - apply arr_includes_not_In in Hin.
    unfold or_else. simpl.
    rewrite update_fresh.
    + rewrite map_app. simpl. f_equal.
      * apply map_ext_in. intros u Hu. rewrite frequency_snoc.
        destruct (String.eqb_spec u t) as [->|_]; [contradiction|].
        f_equal. f_equal. lia.
      * rewrite frequency_snoc, String.eqb_refl.
        unfold frequency. rewrite (proj1 (count_occ_not_In string_dec p t)).
        -- reflexivity.
        -- now rewrite <- Set_of_In.
    + rewrite map_map. simpl. now rewrite map_id.
Qed.

(** Off the names [Object.prototype] defines and the array indices, the
    ranking step selects the first 15 tokens by descending frequency, ties
    by first occurrence. *)
Lemma sortedWords_ranking (tokens : list string) :
  (forall token, In token tokens ->
                 assoc token Object_prototype = None
                 /\ is_array_index token = false) ->
  sortedWords_of (wordFreq_of tokens) = top15 tokens.
Proof.
  intros H. unfold sortedWords_of, top_keys, top15, ranked_by_frequency.
  rewrite wordFreq_of_spec by (intros t Ht; apply H, Ht).
  rewrite entries_no_index.
  - rewrite (sort_map _ (fun a b => (Z.of_nat (frequency tokens b)
                                     - Z.of_nat (frequency tokens a))%Z))
      by reflexivity.
    change 15%Z with (Z.of_nat 15). rewrite slice0_firstn.
    rewrite <- firstn_map, map_map. simpl. now rewrite map_id.
  - apply forallb_forall. intros e He.
    apply in_map_iff in He as [t [<- Ht]]. simpl.
    apply (proj1 (Set_of_In _ _)) in Ht. apply H in Ht as [_ ->]. reflexivity.
Qed.

(** In the Tag Generator the only tokens [Object.prototype] can capture
    are [constructor] and [__proto__]: tokens are lowercase, and tokens of
    digits are filtered out. *)
Lemma sortedWords_ranking_pipeline (stopwords : list string) (description : string) :
  let filteredTokens :=
    filteredTokens_of stopwords
      (Natural.WordTokenizer_tokenize (cleanText_of description)) in
  ~ In "constructor" filteredTokens ->
  ~ In "__proto__" filteredTokens ->
  sortedWords_of (wordFreq_of filteredTokens) = top15 filteredTokens.
Proof.
  intros filteredTokens Hc Hp. apply sortedWords_ranking.
  intros t Ht. pose proof Ht as Hin.
  unfold filteredTokens, filteredTokens_of in Hin.
  apply filter_In in Hin as [Htok Hkeep].
  apply andb_true_iff in Hkeep as [_ Hdigits].
  apply negb_true_iff in Hdigits.
  split.
  - apply tokens_lowercase in Htok. unfold lowercase in Htok.
    destruct (assoc t Object_prototype) as [v|] eqn:E; [|reflexivity].
    apply assoc_In in E. simpl in E.
    repeat (destruct E as [E|E];
            [injection E as <- _;
             first [ contradiction | vm_compute in Htok; discriminate Htok ]|]).
    contradiction.
  - unfold is_array_index. now rewrite Hdigits.
Qed.

(** C6, at the failing input: the description ["travel constructor
    constructor"] has the filtered tokens travel, constructor, constructor.
    The first read of [wordFreq["constructor"]] finds the inherited
    function [Object], the stored count is a string, the one comparison of
    the sort yields NaN (read as 0), and the ranking keeps travel before
    constructor although constructor occurs twice. *)
Theorem sortedWords_inherited_constructor :
  let filteredTokens :=
    filteredTokens_of Natural.stopwords
      (Natural.WordTokenizer_tokenize (cleanText_of "travel constructor constructor")) in
  filteredTokens = ["travel"; "constructor"; "constructor"]
  /\ wordFreq_of filteredTokens
     = [("travel", VNum 1);
        ("constructor", VStr "function Object() { [native code] }11")]
  /\ sortedWords_of (wordFreq_of filteredTokens) = ["travel"; "constructor"]
  /\ top15 filteredTokens = ["constructor"; "travel"].
Proof. cbv zeta. repeat split; vm_compute; reflexivity. Qed.

(** The token [__proto__] never enters [wordFreq]: the assignment runs the
    inherited setter, which ignores a string. *)
Example sortedWords_inherited_proto :
  sortedWords_of (wordFreq_of ["__proto__"; "__proto__"; "travel"]) = ["travel"]
  /\ top15 ["__proto__"; "__proto__"; "travel"] = ["__proto__"; "travel"].
Proof. split; vm_compute; reflexivity. Qed.

(** With a third word the comparisons with the count of [constructor] are
    NaN again: travel, constructor, food is one run for the sort, which
    leaves it as it is, although food occurs twice. *)
Example sortedWords_inherited_constructor_run :
  sortedWords_of (wordFreq_of ["travel"; "constructor"; "food"; "food"])
  = ["travel"; "constructor"; "food"]
  /\ top15 ["travel"; "constructor"; "food"; "food"]
     = ["food"; "travel"; "constructor"].
Proof. split; vm_compute; reflexivity. Qed.

(** Ties keep the order of first occurrence. *)
Example sortedWords_ties :
  sortedWords_of (wordFreq_of ["zeta"; "alpha"; "alpha"; "beta"; "zeta"; "gamma"])
  = ["zeta"; "alpha"; "beta"; "gamma"].
Proof. vm_compute. reflexivity. Qed.

(* ===================================================================== *)
(** ** The scenarios of the specification *)
(* ===================================================================== *)

(** Scenario 1: the plural token overlaps the common tag [tutorial], which
    also occurs literally in the text. *)
Example generateTags_scenario1 :
  generateTags Natural.stopwords
    (VStr "I love building AI apps with React and Node tutorials")
    "technology" 8
  = Fulfilled ["tutorials"; "tutorial"].
Proof. vm_compute. reflexivity. Qed.

(** Scenario 2: the empty description. *)
Example empty_description (natural : Natural.sentiment_api) :
  generateTags Natural.stopwords (VStr EmptyString) "other" 8 = Fulfilled []
  /\ suggestCategories EmptyString [] = Fulfilled []
  /\ extractKeyPhrases Natural.stopwords (VStr EmptyString) 5 = Fulfilled []
  /\ analyzeSentiment natural (VStr EmptyString) = Fulfilled neutral.
Proof.
  repeat split; try (vm_compute; reflexivity).
  apply analyzeSentiment_always_neutral.
Qed.

(* ===================================================================== *)
(** ** The normalized text of the Tag Generator *)
(* ===================================================================== *)

Lemma map_chars_fuse (f g : ascii -> ascii) (s : string) :
  map_chars g (map_chars f s) = map_chars (fun c => g (f c)) s.
Proof. induction s as [|c s IH]; simpl; [reflexivity|now rewrite IH]. Qed.

Lemma map_chars_fixed (f : ascii -> ascii) (s : string) :
  all_chars (fun c => Ascii.eqb (f c) c) s = true -> map_chars f s = s.
Proof.
  induction s as [|c s IH]; simpl; [reflexivity|].
  intros H. apply andb_true_iff in H as [Hc Hs].
  apply Ascii.eqb_eq in Hc. now rewrite Hc, IH.
Qed.

Lemma all_chars_impl (P Q : ascii -> bool) (s : string) :
  (forall c, P c = true -> Q c = true) ->
  all_chars P s = true -> all_chars Q s = true.
Proof.
  intros HPQ. induction s as [|c s IH]; simpl; [reflexivity|].
  intros H. apply andb_true_iff in H as [Hc Hs]. now rewrite (HPQ c Hc), IH.
Qed.

(** After lowercasing and replacing punctuation every character is a
    normalized character or whitespace. *)
Lemma replaced_char_shape (c : ascii) :
  (fun c' => clean_char c' || is_space c')
    ((fun c' => if is_word c' || is_space c' then c' else " "%char) (lower_char c))
  = true.
Proof. destruct c as [[] [] [] [] [] [] [] []]; vm_compute; reflexivity. Qed.

Lemma clean_char_kept (c : ascii) :
  clean_char c = true ->
  Ascii.eqb (if is_word c || is_space c then c else " "%char) c = true.
Proof. destruct c as [[] [] [] [] [] [] [] []]; vm_compute; intros H; congruence. Qed.

Lemma clean_char_lower_fixed (c : ascii) :
  clean_char c = true -> lower_fixed c = true.
Proof. destruct c as [[] [] [] [] [] [] [] []]; vm_compute; intros H; congruence. Qed.

Lemma collapse_clean (b : bool) (s : string) :
  all_chars (fun c => clean_char c || is_space c) s = true ->
  all_chars clean_char (collapse_ws b s) = true.
Proof.
  revert b. induction s as [|c s IH]; intros b; simpl; [reflexivity|].
  intros H. apply andb_true_iff in H as [Hc Hs].
  destruct (is_space c) eqn:Esp.
  - destruct b; [now apply IH|].
    change (all_chars clean_char (String " "%char (collapse_ws true s)))
      with (clean_char " "%char && all_chars clean_char (collapse_ws true s)).
    change (clean_char " "%char) with true. now apply IH.
  - simpl. rewrite orb_false_r in Hc. rewrite Hc. now apply IH.
Qed.

Lemma collapse_single_spaced (b : bool) (s : string) :
  single_spaced b (collapse_ws b s) = true.
Proof.
  revert b. induction s as [|c s IH]; intros b; simpl; [reflexivity|].
  destruct (is_space c) eqn:Esp.
  - destruct b; [apply IH|]. simpl. apply IH.
  - simpl. rewrite Esp. apply IH.
Qed.

Lemma single_spaced_weaken (b : bool) (s : string) :
  single_spaced b s = true -> single_spaced false s = true.
Proof.
  destruct s as [|c s]; simpl; [reflexivity|].
  destruct (is_space c); [|auto].
  intros H. apply andb_true_iff in H as [H Hs].
  apply andb_true_iff in H as [H _]. now rewrite H, Hs.
Qed.

Lemma single_spaced_fixed (b : bool) (s : string) :
  single_spaced b s = true -> collapse_ws b s = s.
Proof.
  revert b. induction s as [|c s IH]; intros b; simpl; [reflexivity|].
  destruct (is_space c) eqn:Esp.
  - intros H. apply andb_true_iff in H as [H Hs].
    apply andb_true_iff in H as [Hc Hb].
    apply negb_true_iff in Hb. subst b.
    rewrite (IH true Hs). f_equal.
    apply Nat.eqb_eq in Hc. unfold code in Hc.
    rewrite <- (ascii_nat_embedding c), Hc. reflexivity.
  - intros H. now rewrite (IH false H).
Qed.

Lemma single_spaced_trimStart (b : bool) (s : string) :
  single_spaced b s = true -> single_spaced false (trimStart s) = true.
Proof.
  revert b. induction s as [|c s IH]; intros b; simpl; [reflexivity|].
  destruct (is_space c) eqn:Esp.
  - intros H. apply andb_true_iff in H as [_ Hs]. eapply IH, Hs.
  - intros H. simpl. now rewrite Esp.
Qed.

Lemma single_spaced_trimEnd (b : bool) (s : string) :
  single_spaced b s = true -> single_spaced b (trimEnd s) = true.
Proof.
  revert b. induction s as [|c s IH]; intros b; simpl; [reflexivity|].
  destruct (is_space c) eqn:Esp.
  - intros H. apply andb_true_iff in H as [H Hs].
    specialize (IH true Hs).
    destruct (trimEnd s) as [|c' r]; [reflexivity|].
    simpl. rewrite Esp. simpl in IH. now rewrite H, IH.
  - intros H. specialize (IH false H).
    destruct (trimEnd s) as [|c' r]; simpl; rewrite Esp; [reflexivity|].
    exact IH.
Qed.

Lemma trimEnd_idem (s : string) : trimEnd (trimEnd s) = trimEnd s.
Proof.
  induction s as [|c s IH]; simpl; [reflexivity|].
  destruct (trimEnd s) as [|c' r] eqn:E.
  - destruct (is_space c) eqn:Esp; simpl; [reflexivity|]. now rewrite Esp.
  - simpl in *. now rewrite IH.
Qed.

Lemma trimStart_head (s : string) :
  trimStart s = EmptyString
  \/ exists c r, trimStart s = String c r /\ is_space c = false.
Proof.
  induction s as [|c s IH]; simpl; [now left|].
  destruct (is_space c) eqn:Esp; [exact IH|]. right. now exists c, s.
Qed.

Lemma trimEnd_head (c : ascii) (r : string) :
  is_space c = false -> exists r', trimEnd (String c r) = String c r'.
Proof.
  intros Esp. simpl. destruct (trimEnd r); [rewrite Esp|]; eauto.
Qed.

(** No whitespace is left at either end of a trimmed string. *)
Lemma trim_idem (s : string) : trim (trim s) = trim s.
Proof.
  unfold trim.
  destruct (trimStart_head s) as [->|[c [r [-> Esp]]]]; [reflexivity|].
  destruct (trimEnd_head c r Esp) as [r' E]. rewrite E.
  simpl trimStart. rewrite Esp. rewrite <- E. apply trimEnd_idem.
Qed.

Lemma cleanText_clean (description : string) :
  all_chars clean_char (cleanText_of description) = true.
Proof.
  unfold cleanText_of, trim, replace_ws_space.
  apply all_chars_trimEnd, all_chars_trimStart, collapse_clean.
  unfold replace_punct_space, toLowerCase. rewrite map_chars_fuse.
  apply all_chars_map. intros c. apply replaced_char_shape.
Qed.

Lemma cleanText_single_spaced (description : string) :
  single_spaced false (cleanText_of description) = true.
Proof.
  unfold cleanText_of, trim, replace_ws_space.
  apply single_spaced_trimEnd. eapply single_spaced_trimStart.
  apply collapse_single_spaced.
Qed.

(** X1: the normalization of a description: only the characters [a-z0-9_] and
    single spaces between them are left, with no space at either end, and
    normalizing again changes nothing. *)
Theorem cleanText_normal_form (description : string) :
  let cleanText := cleanText_of description in
  all_chars clean_char cleanText = true
  /\ single_spaced false cleanText = true
  /\ trim cleanText = cleanText
  /\ cleanText_of cleanText = cleanText.
Proof.
  cbv zeta.
  pose proof (cleanText_clean description) as Hclean.
  pose proof (cleanText_single_spaced description) as Hsp.
  assert (Htrim : trim (cleanText_of description) = cleanText_of description).
  { unfold cleanText_of. apply trim_idem. }
  repeat split; try assumption.
  unfold cleanText_of at 1.
  assert (Hlow : toLowerCase (cleanText_of description) = cleanText_of description).
  { apply lower_fixed_lowercase.
    eapply all_chars_impl; [apply clean_char_lower_fixed|exact Hclean]. }
  rewrite Hlow.
  assert (Hrep : replace_punct_space (cleanText_of description)
                 = cleanText_of description).
  { unfold replace_punct_space. apply map_chars_fixed.
    eapply all_chars_impl; [apply clean_char_kept|exact Hclean]. }
  rewrite Hrep. unfold replace_ws_space.
  rewrite (single_spaced_fixed false _ Hsp). exact Htrim.
Qed.

(* ===================================================================== *)
(** ** Tokens of the normalized text *)
(* ===================================================================== *)

Lemma split_runs_not_nil (sep : ascii -> bool) (b : bool) (s : string) :
  split_runs sep b s <> [].
Proof.
  revert b. induction s as [|c s IH]; intros b; simpl; [discriminate|].
  destruct (sep c).
  - destruct b; [apply IH|discriminate].
  - destruct (split_runs sep false s); discriminate.
Qed.

(** No piece of a split holds a separator. *)
Lemma split_runs_pieces (sep : ascii -> bool) (b : bool) (s : string) :
  Forall (fun piece => all_chars (fun c => negb (sep c)) piece = true)
         (split_runs sep b s).
Proof.
  revert b. induction s as [|c s IH]; intros b; simpl.
  - repeat constructor.
  - destruct (sep c) eqn:E.
    + destruct b; [apply IH|]. constructor; [reflexivity|apply IH].
    + specialize (IH false).
      destruct (split_runs sep false s) as [|p ps].
      * repeat constructor. simpl. now rewrite E.
      * inversion IH; subst. constructor; [|assumption].
        simpl. now rewrite E.
Qed.

Lemma split_runs_flag (sep : ascii -> bool) (s : string) :
  match s with
  | EmptyString => True
  | String c _ => sep c = false
  end ->
  split_runs sep true s = split_runs sep false s.
Proof. destruct s as [|c s]; simpl; [reflexivity|]. now intros ->. Qed.

Lemma clean_char_separator (c : ascii) :
  clean_char c = true -> negb (is_word c) = is_space c.
Proof. destruct c as [[] [] [] [] [] [] [] []]; vm_compute; intros H; congruence. Qed.

Lemma clean_word_char (c : ascii) :
  clean_char c = true -> negb (negb (is_word c)) = true -> token_char c = true.
Proof. destruct c as [[] [] [] [] [] [] [] []]; vm_compute; intros H1 H2; congruence. Qed.

Lemma single_spaced_head (s : string) :
  single_spaced true s = true ->
  match s with
  | EmptyString => True
  | String c _ => is_space c = false
  end.
Proof.
  destruct s as [|c s]; simpl; [trivial|].
  destruct (is_space c); [|reflexivity].
  rewrite andb_false_r. discriminate.
Qed.

Lemma join_cons (sep piece : string) (pieces : list string) :
  pieces <> [] ->
  join sep (piece :: pieces) = (piece ++ sep ++ join sep pieces)%string.
Proof. destruct pieces; [congruence|reflexivity]. Qed.

Lemma join_head_char (sep : string) (c : ascii) (piece : string) (pieces : list string) :
  join sep (String c piece :: pieces) = String c (join sep (piece :: pieces)).
Proof. destruct pieces; reflexivity. Qed.

(** Joining the pieces of single-spaced text with a space gives it back. *)
Lemma split_join_single_spaced (s : string) :
  all_chars clean_char s = true ->
  single_spaced false s = true ->
  join " " (split_runs (fun c => negb (is_word c)) false s) = s.
Proof.
  induction s as [|c s IH]; [reflexivity|].
  intros Hclean Hsp. simpl in Hclean.
  apply andb_true_iff in Hclean as [Hc Hs].
  simpl split_runs. rewrite (clean_char_separator c Hc).
  simpl in Hsp. destruct (is_space c) eqn:Esp.
  - apply andb_true_iff in Hsp as [H32 Hsp'].
    rewrite andb_true_r in H32.
    apply Nat.eqb_eq in H32. unfold code in H32.
    assert (Ec : c = " "%char)
      by (rewrite <- (ascii_nat_embedding c), H32; reflexivity).
    rewrite split_runs_flag.
    + rewrite join_cons by apply split_runs_not_nil.
      rewrite (IH Hs (single_spaced_weaken _ _ Hsp')). now subst c.
    + pose proof (single_spaced_head s Hsp') as Hhead.
      destruct s as [|c' s']; [trivial|].
      simpl in Hs. apply andb_true_iff in Hs as [Hc' _].
      now rewrite (clean_char_separator c' Hc').
  - specialize (IH Hs Hsp).
    destruct (split_runs (fun c0 => negb (is_word c0)) false s) as [|p ps] eqn:E.
    + now apply split_runs_not_nil in E.
    + rewrite join_head_char. now rewrite IH.
Qed.

Lemma trimEnd_tail (c : ascii) (s : string) :
  trimEnd (String c s) = String c s -> trimEnd s = s.
Proof.
  simpl. destruct (trimEnd s) as [|c' r] eqn:E.
  - destruct (is_space c); [discriminate|]. now intros [= <-].
  - now intros [= <-].
Qed.

(** In text without a space at its end, only the first piece can be empty,
    and only when the text is empty or begins with a space. *)
Lemma split_pieces_nonempty (s : string) :
  all_chars clean_char s = true ->
  single_spaced false s = true ->
  trimEnd s = s ->
  match split_runs (fun c => negb (is_word c)) false s with
  | [] => False
  | piece :: pieces =>
      Forall (fun p => p <> EmptyString) pieces
      /\ (piece = EmptyString ->
          match s with
          | EmptyString => True
          | String c _ => is_space c = true
          end)
  end.
Proof.
  induction s as [|c s IH]; [simpl; auto|].
  intros Hclean Hsp Hend. simpl in Hclean.
  apply andb_true_iff in Hclean as [Hc Hs].
  pose proof (trimEnd_tail c s Hend) as Hend'.
  simpl split_runs. rewrite (clean_char_separator c Hc).
  simpl in Hsp. destruct (is_space c) eqn:Esp.
  - apply andb_true_iff in Hsp as [_ Hsp'].
    pose proof (single_spaced_head s Hsp') as Hhead.
    split; [|reflexivity].
    destruct s as [|c' s'].
    + simpl in Hend. rewrite Esp in Hend. discriminate.
    + assert (Hc' : clean_char c' = true)
        by (simpl in Hs; now apply andb_true_iff in Hs as [Hc' _]).
      rewrite split_runs_flag by now rewrite (clean_char_separator c' Hc').
      specialize (IH Hs (single_spaced_weaken _ _ Hsp') Hend').
      destruct (split_runs (fun c0 => negb (is_word c0)) false (String c' s'))
        as [|p ps]; [contradiction|].
      destruct IH as [Hps Hp]. constructor; [|assumption].
      intros ->. specialize (Hp eq_refl). congruence.
  - specialize (IH Hs Hsp Hend').
    destruct (split_runs (fun c0 => negb (is_word c0)) false s) as [|p ps];
      [contradiction|].
    destruct IH as [Hps _]. split; [assumption|discriminate].
Qed.

Lemma trim_trimEnd (s : string) : trim s = s -> trimEnd s = s.
Proof. intros H. rewrite <- H. unfold trim. apply trimEnd_idem. Qed.

Lemma trim_head (s : string) :
  trim s = s ->
  match s with
  | EmptyString => True
  | String c _ => is_space c = false
  end.
Proof.
  intros H. destruct s as [|c s]; [trivial|].
  destruct (is_space c) eqn:Esp; [|reflexivity].
  exfalso. unfold trim in H.
  destruct (trimStart_head (String c s)) as [E|[c' [r [E Esp']]]].
  - rewrite E in H. discriminate.
  - rewrite E in H. destruct (trimEnd_head c' r Esp') as [r' E'].
    rewrite E' in H. injection H as -> _. congruence.
Qed.

Lemma filter_all {A : Type} (p : A -> bool) (l : list A) :
  Forall (fun x => p x = true) l -> filter p l = l.
Proof.
  induction 1 as [|x l Hx Hl IH]; simpl; [reflexivity|]. now rewrite Hx, IH.
Qed.

(** X2: tokenizing the normalized text loses nothing: the tokens are its words,
    each a non-empty string over [a-z0-9_], and joining them with single
    spaces gives the normalized text back. *)
Theorem tokenize_cleanText (description : string) :
  let cleanText := cleanText_of description in
  let tokens := Natural.WordTokenizer_tokenize cleanText in
  join " " tokens = cleanText
  /\ Forall (fun token =>
               token <> EmptyString /\ all_chars token_char token = true)
            tokens.
Proof.
  cbv zeta.
  pose proof (cleanText_clean description) as Hclean.
  pose proof (cleanText_single_spaced description) as Hsp.
  assert (Htrim : trim (cleanText_of description) = cleanText_of description)
    by (unfold cleanText_of; apply trim_idem).
  set (t := cleanText_of description) in *.
  pose proof (split_pieces_nonempty t Hclean Hsp (trim_trimEnd t Htrim)) as Hne.
  pose proof (split_runs_pieces (fun c => negb (is_word c)) false t) as Hpieces.
  pose proof (all_chars_split clean_char (fun c => negb (is_word c)) t false Hclean)
    as Hcl.
  pose proof (split_join_single_spaced t Hclean Hsp) as Hjoin.
  pose proof (trim_head t Htrim) as Hhead.
  unfold Natural.WordTokenizer_tokenize, split.
  destruct (split_runs (fun c => negb (is_word c)) false t) as [|p ps] eqn:E;
    [contradiction|].
  destruct Hne as [Hps Hp].
  destruct t as [|c t'] eqn:Et.
  - (* the empty text: one empty piece, no token *)
    simpl in E. injection E as <- <-. simpl. split; [reflexivity|constructor].
  - assert (Hpne : p <> EmptyString).
    { intros ->. specialize (Hp eq_refl). congruence. }
    assert (Hall : Forall (fun piece =>
                     negb (piece =? EmptyString) && negb (piece =? " ") = true)
                   (p :: ps)).
    { rewrite Forall_forall in *. intros piece Hin.
      assert (Hn : piece <> EmptyString)
        by (destruct Hin as [<-|Hin]; [assumption|now apply Hps]).
      specialize (Hpieces piece Hin).
      apply andb_true_iff. split; apply negb_true_iff.
      - now apply String.eqb_neq.
      - apply String.eqb_neq. intros ->. simpl in Hpieces. discriminate. }
    rewrite (filter_all _ _ Hall). split; [exact Hjoin|].
    rewrite Forall_forall in *. intros token Hin. split.
    + destruct Hin as [<-|Hin]; [assumption|now apply Hps].
    + specialize (Hpieces token Hin). specialize (Hcl token Hin).
      clear - Hpieces Hcl.
      induction token as [|a token IH]; [reflexivity|].
      simpl in *. apply andb_true_iff in Hpieces as [Ha Hp].
      apply andb_true_iff in Hcl as [Hc Hc'].
      now rewrite (clean_word_char a Hc Ha), IH.
Qed.

(* ===================================================================== *)
(** ** Count objects: distinct keys and exact ranking *)
(* ===================================================================== *)

(** The keys of an object after an assignment: as adding to a set. *)
Lemma update_keys_set_add (o : object) (k : string) (v : value) :
  map fst (update o k v) = set_add (map fst o) k.
Proof.
  unfold set_add, arr_includes.
  induction o as [|[k' v'] o IH]; simpl; [reflexivity|].
  destruct (String.eqb_spec k k') as [->|Hne]; simpl; [reflexivity|].
  rewrite IH. now destruct (existsb (String.eqb k) (map fst o)).
Qed.

Lemma count_one_NoDup (counts : object) (key : string) :
  NoDup (map fst counts) -> NoDup (map fst (count_one counts key)).
Proof.
  intros H. unfold count_one, set. destruct (key =? "__proto__"); [assumption|].
  rewrite update_keys_set_add. now apply set_add_NoDup.
Qed.

Lemma count_fold_NoDup (keys : list string) (counts : object) :
  NoDup (map fst counts) -> NoDup (map fst (fold_left count_one keys counts)).
Proof.
  revert counts. induction keys as [|key keys IH]; intros counts H; simpl;
    [assumption|].
  apply IH, count_one_NoDup, H.
Qed.

Lemma count_fold_no_proto (keys : list string) (counts : object) :
  ~ In "__proto__" (map fst counts) ->
  ~ In "__proto__" (map fst (fold_left count_one keys counts)).
Proof.
  revert counts. induction keys as [|key keys IH]; intros counts H; simpl;
    [assumption|].
  apply IH. unfold count_one, set.
  destruct (String.eqb_spec key "__proto__") as [->|Hne]; [assumption|].
  intros Hin. apply update_keys in Hin as [E|Hin]; [congruence|contradiction].
Qed.

Lemma top_keys_NoDup (counts : object) (limit : Z) :
  NoDup (map fst counts) -> NoDup (top_keys counts limit).
Proof.
  intros H. unfold top_keys, slice0. rewrite <- firstn_map.
  apply NoDup_firstn_keeps.
  eapply Permutation_NoDup; [|exact H].
  apply Permutation_map. symmetry.
  etransitivity; [apply sort_perm|apply entries_perm].
Qed.

(** X3: the words the ranking step selects: at most 15, no word twice, each of
    them a token that passed the filter (longer than 2, no stopword, not
    made of digits only), and never [__proto__]. *)
Theorem sortedWords_invariant (stopwords tokens : list string) :
  let sortedWords :=
    sortedWords_of (wordFreq_of (filteredTokens_of stopwords tokens)) in
  length sortedWords <= 15
  /\ NoDup sortedWords
  /\ Forall (fun word =>
               In word tokens
               /\ 2 < String.length word
               /\ ~ In word stopwords
               /\ all_digits word = false
               /\ word <> "__proto__")
            sortedWords.
Proof.
  cbv zeta. unfold sortedWords_of, wordFreq_of. split; [|split].
  - pose proof (top_keys_length
                  (fold_left count_one (filteredTokens_of stopwords tokens) [])
                  15 ltac:(lia)). lia.
  - apply top_keys_NoDup, count_fold_NoDup. constructor.
  - apply Forall_forall. intros word Hw. apply top_keys_incl in Hw.
    assert (Hnp : word <> "__proto__").
    { intros ->. revert Hw. apply count_fold_no_proto. intros []. }
    apply count_fold_keys in Hw as [[]|Hw].
    unfold filteredTokens_of in Hw. apply filter_In in Hw as [Hin Hkeep].
    apply andb_true_iff in Hkeep as [Hkeep Hdig].
    apply andb_true_iff in Hkeep as [Hlen Hstop].
    apply Nat.ltb_lt in Hlen. apply negb_true_iff in Hstop, Hdig.
    apply arr_includes_not_In in Hstop. auto.
Qed.

(** Counting keys that name neither an inherited property nor an array
    index, and taking the first [n]: the distinct keys by descending
    frequency, ties by first occurrence. *)
Lemma top_keys_ranking (keys : list string) (n : nat) :
  (forall key, In key keys ->
               assoc key Object_prototype = None
               /\ is_array_index key = false) ->
  top_keys (fold_left count_one keys []) (Z.of_nat n)
  = firstn n (ranked_by_frequency keys).
Proof.
  intros H. unfold top_keys, ranked_by_frequency.
  change (fold_left count_one keys []) with (wordFreq_of keys).
  rewrite wordFreq_of_spec by (intros t Ht; apply H, Ht).
  rewrite entries_no_index.
  - rewrite (sort_map _ (fun a b => (Z.of_nat (frequency keys b)
                                     - Z.of_nat (frequency keys a))%Z))
      by reflexivity.
    rewrite slice0_firstn.
    rewrite <- firstn_map, map_map. simpl. now rewrite map_id.
  - apply forallb_forall. intros e He.
    apply in_map_iff in He as [t [<- Ht]]. simpl.
    apply (proj1 (Set_of_In _ _)) in Ht. apply H in Ht as [_ ->]. reflexivity.
Qed.

(** What "descending frequency, ties by first occurrence" says of a ranking
    of the distinct keys. *)
Lemma ranked_by_frequency_spec (keys : list string) :
  let ranked := ranked_by_frequency keys in
  NoDup ranked
  /\ (forall key, In key ranked <-> In key keys)
  /\ StronglySorted (fun a b => frequency keys b <= frequency keys a) ranked
  /\ (forall k,
        filter (fun key => Nat.eqb (frequency keys key) k) ranked
        = filter (fun key => Nat.eqb (frequency keys key) k) (Set_of keys)).
Proof.
  cbv zeta. unfold ranked_by_frequency.
  set (key := fun t : string => Z.of_nat (frequency keys t)).
  set (cmp := fun a b : string => (key b - key a)%Z).
  change (sort (fun a b => (Z.of_nat (frequency keys b)
                            - Z.of_nat (frequency keys a))%Z) (Set_of keys))
    with (sort cmp (Set_of keys)).
  pose proof (sort_perm cmp (Set_of keys)) as Hperm.
  split; [|split; [|split]].
  - eapply Permutation_NoDup; [symmetry; exact Hperm|apply Set_of_NoDup].
  - intros t. rewrite <- (Set_of_In keys t). split.
    + apply (Permutation_in _ Hperm).
    + apply (Permutation_in _ (Permutation_sym Hperm)).
  - eapply StronglySorted_weaken; [|apply (sort_sorted key cmp); reflexivity].
    unfold key. simpl. intros a b Hab. lia.
  - intros k.
    assert (Hext : forall t : string,
               Nat.eqb (frequency keys t) k = (key t =? Z.of_nat k)%Z).
    { intros t. unfold key.
      destruct (Nat.eqb_spec (frequency keys t) k);
        destruct (Z.eqb_spec (Z.of_nat (frequency keys t)) (Z.of_nat k));
        lia || reflexivity. }
    rewrite !(filter_ext _ _ Hext).
    apply (sort_stable key cmp (fun x y => eq_refl)).
Qed.

(** X4: unless [constructor] or [__proto__] is among the filtered tokens, the
    frequency ranking of the Tag Generator is exact: the first 15 of the
    distinct filtered tokens in descending order of their number of
    occurrences, tokens of equal frequency in the order of their first
    occurrence. *)
Theorem sortedWords_frequency_order (stopwords : list string) (description : string) :
  let filteredTokens :=
    filteredTokens_of stopwords
      (Natural.WordTokenizer_tokenize (cleanText_of description)) in
  ~ In "constructor" filteredTokens ->
  ~ In "__proto__" filteredTokens ->
  exists ranked,
    sortedWords_of (wordFreq_of filteredTokens) = firstn 15 ranked
    /\ NoDup ranked
    /\ (forall token, In token ranked <-> In token filteredTokens)
    /\ StronglySorted (fun a b => frequency filteredTokens b
                                  <= frequency filteredTokens a) ranked
    /\ (forall k,
          filter (fun token => Nat.eqb (frequency filteredTokens token) k) ranked
          = filter (fun token => Nat.eqb (frequency filteredTokens token) k)
                   (Set_of filteredTokens)).
Proof.
  intros filteredTokens Hc Hp.
  exists (ranked_by_frequency filteredTokens). split.
  - apply (sortedWords_ranking_pipeline stopwords description Hc Hp).
  - apply ranked_by_frequency_spec.
Qed.

Lemma sortedWords_frequency_order_witness :
  let filteredTokens :=
    filteredTokens_of Natural.stopwords
      (Natural.WordTokenizer_tokenize
         (cleanText_of "Zeta alpha, alpha beta; zeta gamma!")) in
  exists ranked,
    sortedWords_of (wordFreq_of filteredTokens) = firstn 15 ranked
    /\ NoDup ranked
    /\ (forall token, In token ranked <-> In token filteredTokens)
    /\ StronglySorted (fun a b => frequency filteredTokens b
                                  <= frequency filteredTokens a) ranked
    /\ (forall k,
          filter (fun token => Nat.eqb (frequency filteredTokens token) k) ranked
          = filter (fun token => Nat.eqb (frequency filteredTokens token) k)
                   (Set_of filteredTokens)).
Proof.
  apply (sortedWords_frequency_order Natural.stopwords
           "Zeta alpha, alpha beta; zeta gamma!");
    vm_compute; intuition discriminate.
Defined.

(* ===================================================================== *)
(** ** Tag Generator: budget, normalization and priority *)
(* ===================================================================== *)

Lemma generateTags_fallback_witness :
  generateTags Natural.stopwords (VStr "My first vlog about social media") "podcast" 8
  = generateTags Natural.stopwords (VStr "My first vlog about social media") "other" 8.
Proof.
  apply (generateTags_fallback Natural.stopwords
           (VStr "My first vlog about social media") "podcast" 8).
  - vm_compute. intuition discriminate.
  - reflexivity.
Defined.

Lemma firstn_le_app {A : Type} (a b : nat) (l : list A) :
  a <= b -> firstn b l = firstn a l ++ firstn (b - a) (skipn a l).
Proof.
  revert b l. induction a as [|a IH]; intros b l Hab.
  - simpl. now rewrite Nat.sub_0_r.
  - destruct b as [|b]; [lia|]. destruct l as [|x l]; simpl.
    + now rewrite firstn_nil.
    + f_equal. apply IH. lia.
Qed.

Lemma slice0_prefix {A : Type} (arr : list A) (m m' : Z) :
  (0 <= m <= m')%Z -> exists more, slice0 arr m' = slice0 arr m ++ more.
Proof.
  intros H. unfold slice0.
  destruct (Z.ltb_spec m 0); [lia|]. destruct (Z.ltb_spec m' 0); [lia|].
  eexists. apply firstn_le_app. lia.
Qed.

Lemma uniqueTags_prefix (allPotentialTags : list string) (m m' : Z) :
  (0 <= m <= m')%Z ->
  exists more,
    uniqueTags_of allPotentialTags m' = uniqueTags_of allPotentialTags m ++ more.
Proof.
  intros H. unfold uniqueTags_of.
  destruct (slice0_prefix (Set_of allPotentialTags) m m' H) as [more ->].
  rewrite filter_app. eauto.
Qed.

(** X6: raising [maxTags] only appends tags: the result for a smaller
    non-negative bound is a prefix of the result for a larger one. *)
Theorem generateTags_prefix (stopwords : list string) (description : value)
        (category : string) (maxTags maxTags' : Z) :
  (0 <= maxTags <= maxTags')%Z ->
  exists tags more,
    generateTags stopwords description category maxTags = Fulfilled tags
    /\ generateTags stopwords description category maxTags'
       = Fulfilled (tags ++ more).
Proof.
  intros H. unfold generateTags.
  destruct description as [ | |b|n| |text|name| |elems];
    try (rewrite !generateTags_body_guard by (left; reflexivity);
         exists [], []; split; reflexivity).
  destruct text as [|c rest]; [exists [], []; split; reflexivity|].
  rewrite !generateTags_body_string. cbv zeta.
  destruct (as_array (or_else (get CATEGORY_TAGS_object category)
                              (get CATEGORY_TAGS_object "other")))
    as [keywords|e]; cbn [bind async_try_catch].
  - match goal with
    | |- context [uniqueTags_of ?all maxTags'] =>
        destruct (uniqueTags_prefix all maxTags maxTags' H) as [more ->]
    end.
    eauto.
  - exists [], []. split; reflexivity.
Qed.

Lemma generateTags_prefix_witness :
  exists tags more,
    generateTags Natural.stopwords (VStr "vlog travel food") "other" 2
    = Fulfilled tags
    /\ generateTags Natural.stopwords (VStr "vlog travel food") "other" 8
       = Fulfilled (tags ++ more).
Proof.
  apply (generateTags_prefix Natural.stopwords (VStr "vlog travel food") "other" 2 8).
  lia.
Defined.

Lemma map_chars_ext (f g : ascii -> ascii) (s : string) :
  (forall c, f c = g c) -> map_chars f s = map_chars g s.
Proof.
  intros H. induction s as [|c s IH]; simpl; [reflexivity|]. now rewrite H, IH.
Qed.

Lemma toLowerCase_idem (s : string) : toLowerCase (toLowerCase s) = toLowerCase s.
Proof.
  unfold toLowerCase. rewrite map_chars_fuse.
  apply map_chars_ext, lower_char_idem.
Qed.

Lemma includes_empty_text (t : string) :
  includes EmptyString t = true -> t = EmptyString.
Proof. destruct t; [reflexivity|discriminate]. Qed.

Lemma table_keywords_nonempty (keywords : list string) (tag : string) :
  In keywords (map snd CATEGORY_TAGS) -> In tag keywords -> tag <> EmptyString.
Proof.
  intros Hk Ht.
  assert (Hall : forallb (fun kws =>
                   forallb (fun t => negb (t =? EmptyString)) kws)
                   (map snd CATEGORY_TAGS) = true) by (vm_compute; reflexivity).
  rewrite forallb_forall in Hall. specialize (Hall _ Hk).
  rewrite forallb_forall in Hall. specialize (Hall _ Ht).
  apply negb_true_iff in Hall. now apply String.eqb_neq.
Qed.

Lemma COMMON_TAGS_long (tag : string) :
  In tag COMMON_TAGS -> 3 <= String.length tag.
Proof.
  intros H.
  assert (Hall : forallb (fun t => Nat.leb 3 (String.length t)) COMMON_TAGS = true)
    by (vm_compute; reflexivity).
  rewrite forallb_forall in Hall. now apply Nat.leb_le, Hall.
Qed.

(** The empty normalized text yields no tag, whatever the category. *)
Lemma uniqueTags_empty_text (category : string) (maxTags : Z) :
  uniqueTags_of
    (allPotentialTags_of EmptyString
       (sortedWords_of (wordFreq_of []))
       (relevantCategoryTags_of EmptyString (sortedWords_of (wordFreq_of []))
          (keywords_of category)))
    maxTags = [].
Proof.
  change (sortedWords_of (wordFreq_of [])) with (@nil string).
  assert (Hrel : relevantCategoryTags_of EmptyString [] (keywords_of category) = []).
  { unfold relevantCategoryTags_of. apply filter_none. intros tag Ht.
    cbn [existsb]. rewrite orb_false_r.
    destruct (includes EmptyString tag) eqn:E; [|reflexivity].
    apply includes_empty_text in E.
    exfalso. eapply table_keywords_nonempty; eauto using keywords_of_in_table. }
  rewrite Hrel.
  assert (Hall : allPotentialTags_of EmptyString [] [] = [])
    by (vm_compute; reflexivity).
  rewrite Hall. unfold uniqueTags_of, Set_of, slice0. simpl.
  now rewrite firstn_nil.
Qed.

(** The value the Tag Generator computes from a string: a function of the
    normalized text alone. *)
Lemma generateTags_by_cleanText (stopwords : list string) (text category : string)
      (maxTags : Z) :
  let cleanText := cleanText_of text in
  let sortedWords :=
    sortedWords_of (wordFreq_of
      (filteredTokens_of stopwords (Natural.WordTokenizer_tokenize cleanText))) in
  generateTags stopwords (VStr text) category maxTags
  = async_try_catch
      (categorySpecificTags <-
         as_array (or_else (get CATEGORY_TAGS_object category)
                           (get CATEGORY_TAGS_object "other")) ;;
       Normal (uniqueTags_of
                 (allPotentialTags_of cleanText sortedWords
                    (relevantCategoryTags_of cleanText sortedWords
                       categorySpecificTags))
                 maxTags)) [].
Proof.
  cbv zeta. unfold generateTags.
  destruct text as [|c rest]; [|now rewrite generateTags_body_string].
  change (cleanText_of EmptyString) with EmptyString.
  change (Natural.WordTokenizer_tokenize EmptyString) with (@nil string).
  change (filteredTokens_of stopwords []) with (@nil string).
  change (generateTags_body stopwords (VStr EmptyString) category maxTags)
    with (@Normal (list string) []).
  destruct (as_array (or_else (get CATEGORY_TAGS_object category)
                              (get CATEGORY_TAGS_object "other")))
    as [keywords|e] eqn:E; cbn [bind async_try_catch]; [|reflexivity].
  apply category_lookup_Normal in E. subst keywords.
  now rewrite uniqueTags_empty_text.
Qed.

(** X7: descriptions with the same normalized text get the same tags: letter
    case, punctuation and the amount of whitespace do not matter. *)
Theorem generateTags_normalized (stopwords : list string) (text text' category : string)
        (maxTags : Z) :
  cleanText_of text = cleanText_of text' ->
  generateTags stopwords (VStr text) category maxTags
  = generateTags stopwords (VStr text') category maxTags.
Proof.
  intros H. rewrite !generateTags_by_cleanText. cbv zeta. now rewrite H.
Qed.

Lemma generateTags_normalized_witness :
  generateTags Natural.stopwords (VStr "Daily VLOG: travel & food!") "travel" 8
  = generateTags Natural.stopwords (VStr "daily vlog   travel food") "travel" 8.
Proof.
  apply (generateTags_normalized Natural.stopwords
           "Daily VLOG: travel & food!" "daily vlog   travel food" "travel" 8).
  vm_compute. reflexivity.
Defined.

Lemma Set_fold_fresh (arr seen : list string) :
  NoDup (seen ++ arr) -> fold_left set_add arr seen = seen ++ arr.
Proof.
  revert seen. induction arr as [|x arr IH]; intros seen H; simpl.
  - now rewrite app_nil_r.
  - assert (Hx : ~ In x seen).
    { apply NoDup_remove_2 in H. intros Hin. apply H, in_or_app. now left. }
    unfold set_add. rewrite (proj2 (arr_includes_not_In seen x) Hx).
    rewrite IH; rewrite <- app_assoc; [reflexivity|exact H].
Qed.

Lemma Set_fold_extends (arr seen : list string) :
  exists more, fold_left set_add arr seen = seen ++ more.
Proof.
  revert seen. induction arr as [|x arr IH]; intros seen; simpl.
  - exists []. now rewrite app_nil_r.
  - destruct (IH (set_add seen x)) as [more ->]. unfold set_add.
    destruct (arr_includes seen x); [eauto|].
    rewrite <- app_assoc. eauto.
Qed.

(** A duplicate-free front of the candidates stays in front of the set. *)
Lemma Set_of_front (front rest : list string) :
  NoDup front -> exists more, Set_of (front ++ rest) = front ++ more.
Proof.
  intros H. unfold Set_of. rewrite fold_left_app.
  rewrite (Set_fold_fresh front []) by exact H. simpl.
  apply Set_fold_extends.
Qed.

Lemma Set_of_length (arr : list string) : length (Set_of arr) <= length arr.
Proof.
  unfold Set_of.
  assert (H : forall seen,
             length (fold_left set_add arr seen) <= length seen + length arr).
  { induction arr as [|x arr IH]; intros seen; simpl; [lia|].
    specialize (IH (set_add seen x)). unfold set_add in *.
    destruct (arr_includes seen x); [lia|]. rewrite length_app in IH. simpl in IH. lia. }
  apply (H []).
Qed.

Lemma slice0_front {A : Type} (front more : list A) (finish : Z) (x : A) :
  (Z.of_nat (length front) <= finish)%Z ->
  In x front -> In x (slice0 (front ++ more) finish).
Proof.
  intros Hlen Hin. unfold slice0. rewrite length_app.
  destruct (Z.ltb_spec finish 0); [lia|].
  rewrite firstn_app. apply in_or_app. left.
  rewrite firstn_all2; [assumption|lia].
Qed.

Lemma slice0_all {A : Type} (arr : list A) (finish : Z) :
  (Z.of_nat (length arr) <= finish)%Z -> slice0 arr finish = arr.
Proof.
  intros H. unfold slice0. destruct (Z.ltb_spec finish 0); [lia|].
  apply firstn_all2. lia.
Qed.

Lemma table_keywords_NoDup (keywords : list string) :
  In keywords (map snd CATEGORY_TAGS) -> NoDup keywords.
Proof.
  intros H. apply NoDup_by_nodup.
  assert (Hall : forallb (fun kws =>
                   if list_eq_dec string_dec (nodup string_dec kws) kws
                   then true else false) (map snd CATEGORY_TAGS) = true)
    by (vm_compute; reflexivity).
  rewrite forallb_forall in Hall. specialize (Hall _ H).
  now destruct (list_eq_dec string_dec (nodup string_dec keywords) keywords).
Qed.

Lemma table_keywords_count (keywords : list string) :
  In keywords (map snd CATEGORY_TAGS) -> length keywords <= 9.
Proof.
  intros H.
  assert (Hall : forallb (fun kws => Nat.leb (length kws) 9)
                         (map snd CATEGORY_TAGS) = true)
    by (vm_compute; reflexivity).
  rewrite forallb_forall in Hall. now apply Nat.leb_le, Hall.
Qed.

Lemma recognized_category_lookup (category : string) :
  In category category_names ->
  as_array (or_else (get CATEGORY_TAGS_object category)
                    (get CATEGORY_TAGS_object "other"))
  = Normal (keywords_of category).
Proof.
  intros H. pose proof (category_lookup category) as Hl. cbv zeta in Hl.
  unfold keywords_of.
  destruct (assoc category CATEGORY_TAGS) as [kws|] eqn:E; [exact Hl|].
  apply assoc_None in E. contradiction.
Qed.

(** X8: category keywords come first: for a recognized category and a bound
    that is at least the length of its keyword list, every keyword of the
    category that occurs literally in the normalized text and has at least
    3 characters is among the returned tags. *)
Theorem generateTags_keyword_priority (stopwords : list string)
        (text category keyword : string) (maxTags : Z) :
  In category category_names ->
  In keyword (keywords_of category) ->
  includes (cleanText_of text) keyword = true ->
  3 <= String.length keyword ->
  (Z.of_nat (length (keywords_of category)) <= maxTags)%Z ->
  exists tags,
    generateTags stopwords (VStr text) category maxTags = Fulfilled tags
    /\ In keyword tags.
Proof.
  intros Hcat Hkw Hinc Hlen Hmax.
  rewrite generateTags_by_cleanText. cbv zeta.
  rewrite (recognized_category_lookup category Hcat). cbn [bind async_try_catch].
  eexists. split; [reflexivity|].
  unfold uniqueTags_of. apply filter_In. split; [|now apply Nat.leb_le].
  unfold allPotentialTags_of.
  match goal with
  | |- In _ (slice0 (Set_of (?front ++ ?rest)) _) =>
      assert (Hnd : NoDup front)
        by (apply NoDup_filter, table_keywords_NoDup, keywords_of_in_table);
      assert (Hfl : length front <= length (keywords_of category))
        by apply filter_length_le;
      destruct (Set_of_front front rest Hnd) as [more ->]
  end.
  apply slice0_front; [lia|].
  unfold relevantCategoryTags_of. apply filter_In. split; [assumption|].
  now rewrite Hinc.
Qed.

Lemma generateTags_keyword_priority_witness :
  exists tags,
    generateTags Natural.stopwords
      (VStr "A cooking vlog: my kitchen, my recipe, great food") "food" 9
    = Fulfilled tags
    /\ In "recipe" tags.
Proof.
  apply (generateTags_keyword_priority Natural.stopwords
           "A cooking vlog: my kitchen, my recipe, great food" "food" "recipe" 9);
    first [ vm_compute; reflexivity
          | vm_compute; lia
          | vm_compute; intros H; discriminate H
          | vm_compute; repeat (first [left; reflexivity | right]) ].
Defined.

(** X9: nothing is cut at 54: with a recognized category and a bound of at
    least 54 (9 keywords, 15 frequent words, 30 common tags), every common
    tag that occurs literally in the normalized text is returned. *)
Theorem generateTags_common_tags (stopwords : list string)
        (text category tag : string) (maxTags : Z) :
  In category category_names ->
  In tag COMMON_TAGS ->
  includes (cleanText_of text) tag = true ->
  (54 <= maxTags)%Z ->
  exists tags,
    generateTags stopwords (VStr text) category maxTags = Fulfilled tags
    /\ In tag tags.
Proof.
  intros Hcat Htag Hinc Hmax.
  rewrite generateTags_by_cleanText. cbv zeta.
  rewrite (recognized_category_lookup category Hcat). cbn [bind async_try_catch].
  eexists. split; [reflexivity|].
  unfold uniqueTags_of. apply filter_In.
  split; [|now apply Nat.leb_le, COMMON_TAGS_long].
  rewrite slice0_all.
  - apply Set_of_In. unfold allPotentialTags_of.
    apply in_or_app. right. apply in_or_app. right.
    apply filter_In. split; assumption.
  - match goal with
    | |- (Z.of_nat (length (Set_of ?all)) <= _)%Z =>
        pose proof (Set_of_length all) as Hset
    end.
    unfold allPotentialTags_of in Hset. rewrite !length_app in Hset.
    match type of Hset with
    | _ <= length (relevantCategoryTags_of ?ct ?sw ?kws)
           + (length (filter ?p ?sorted) + length (filter ?q COMMON_TAGS)) =>
        pose proof (filter_length_le p sorted) as H1;
        pose proof (filter_length_le q COMMON_TAGS) as H2;
        assert (H3 : length (relevantCategoryTags_of ct sw kws) <= length kws)
          by apply filter_length_le;
        assert (H4 : (Z.of_nat (length sorted) <= 15)%Z)
          by (apply top_keys_length; lia)
    end.
    pose proof (table_keywords_count _ (keywords_of_in_table category)) as H5.
    change (length COMMON_TAGS) with 30 in H2.
    unfold allPotentialTags_of. lia.
Qed.

Lemma generateTags_common_tags_witness :
  exists tags,
    generateTags Natural.stopwords
      (VStr "Street food and city life: a travel adventure") "food" 54
    = Fulfilled tags
    /\ In "adventure" tags.
Proof.
  apply (generateTags_common_tags Natural.stopwords
           "Street food and city life: a travel adventure" "food" "adventure" 54);
    first [ vm_compute; reflexivity
          | vm_compute; lia
          | vm_compute; intros H; discriminate H
          | vm_compute; repeat (first [left; reflexivity | right]) ].
Defined.

(* ===================================================================== *)
(** ** Category Suggester: the best three, letter case, the keyword AI *)
(* ===================================================================== *)

Lemma table_entry_keywords (entry : string * list string) :
  In entry CATEGORY_TAGS -> keywords_of (fst entry) = snd entry.
Proof.
  intros H.
  assert (Hall : forallb (fun e =>
                   if list_eq_dec string_dec (keywords_of (fst e)) (snd e)
                   then true else false) CATEGORY_TAGS = true)
    by (vm_compute; reflexivity).
  rewrite forallb_forall in Hall. specialize (Hall _ H).
  now destruct (list_eq_dec string_dec (keywords_of (fst entry)) (snd entry)).
Qed.

Lemma category_names_NoDup : NoDup category_names.
Proof. apply NoDup_by_nodup. vm_compute. reflexivity. Qed.

Lemma NoDup_map_sub {A B : Type} (f : A -> B) (l l' : list A) :
  NoDup (map f l') -> NoDup l -> incl l l' -> NoDup (map f l).
Proof.
  intros Hnd' Hnd Hincl.
  induction l as [|x l IH]; simpl; [constructor|].
  inversion Hnd as [|? ? Hx Hl]; subst. constructor.
  - intros Hin. apply in_map_iff in Hin as [y [Hy Hyl]].
    assert (y = x); [|subst; contradiction].
    assert (Hinj : forall l0 : list A, NoDup (map f l0) ->
              forall a b, In a l0 -> In b l0 -> f a = f b -> a = b).
    { clear. induction l0 as [|z l0 IH0]; simpl; intros H a b Ha Hb E; [contradiction|].
      inversion H as [|? ? Hz Hl0]; subst.
      destruct Ha as [<-|Ha], Hb as [<-|Hb].
      - reflexivity.
      - exfalso. apply Hz. rewrite E. now apply in_map.
      - exfalso. apply Hz. rewrite <- E. now apply in_map.
      - now apply IH0. }
    apply (Hinj l' Hnd'); [apply Hincl; now right|apply Hincl; now left|exact Hy].
  - apply IH; [assumption|]. intros y Hy. apply Hincl. now right.
Qed.

Lemma StronglySorted_split {A : Type} (R : A -> A -> Prop) (n : nat) (l : list A) :
  StronglySorted R l ->
  forall x y, In x (firstn n l) -> In y (skipn n l) -> R x y.
Proof.
  intros Hs. revert n. induction Hs as [|a l Hl IH Ha]; intros n x y Hx Hy.
  - destruct n; contradiction.
  - destruct n as [|n]; [contradiction|]. simpl in Hx, Hy.
    destruct Hx as [<-|Hx].
    + rewrite Forall_forall in Ha. apply Ha.
      rewrite <- (firstn_skipn n l). apply in_or_app. now right.
    + now apply (IH n).
Qed.

(** X10: the Category Suggester returns the best three: the result has no
    category twice, it has 3 names or all the categories of positive score
    when they are fewer, every returned category has a keyword in the text,
    and no category left out has a higher score than a returned one. *)
Theorem suggestCategories_best_three (description : string) (tags : list string) :
  let cleanText := toLowerCase (description ++ " " ++ join " " tags) in
  let score := fun category => keyword_score cleanText (keywords_of category) in
  exists suggestedCategories,
    suggestCategories description tags = Fulfilled suggestedCategories
    /\ NoDup suggestedCategories
    /\ length suggestedCategories
       = Nat.min 3 (length (filter (fun category => (0 <? score category)%Z)
                                   category_names))
    /\ (forall category, In category suggestedCategories ->
          In category category_names /\ (0 < score category)%Z)
    /\ (forall category omitted,
          In category suggestedCategories ->
          In omitted category_names ->
          ~ In omitted suggestedCategories ->
          (score omitted <= score category)%Z).
Proof.
  cbv zeta. fold (blob_of description tags).
  set (blob := blob_of description tags).
  set (key := fun e : string * list string => Z.of_nat (entry_score blob e)).
  set (cmp := fun a b : string * list string => (key b - key a)%Z).
  set (ranked := sort cmp (scored_categories blob)).
  assert (Hperm : Permutation ranked (scored_categories blob)) by apply sort_perm.
  assert (Hsorted : StronglySorted (fun a b => (key b <= key a)%Z) ranked)
    by (apply (sort_sorted key cmp); reflexivity).
  assert (Hscore : forall e, In e CATEGORY_TAGS ->
            keyword_score blob (keywords_of (fst e)) = key e).
  { intros e He. rewrite (table_entry_keywords e He), keyword_score_count.
    reflexivity. }
  assert (Hscored : forall e, In e (scored_categories blob) <->
            In e CATEGORY_TAGS /\ (0 < key e)%Z).
  { intros e. unfold scored_categories. rewrite filter_In. unfold key.
    destruct (Nat.ltb_spec 0 (entry_score blob e)); split; intros [H1 H2];
      split; try assumption; try reflexivity; try lia; discriminate. }
  assert (Hranked : forall e, In e ranked <-> In e CATEGORY_TAGS /\ (0 < key e)%Z).
  { intros e. rewrite <- Hscored. split; apply Permutation_in;
      [exact Hperm|now apply Permutation_sym]. }
  exists (firstn 3 (map fst ranked)).
  split; [apply suggestCategories_eq|].
  split; [|split; [|split]].
  - apply NoDup_firstn_keeps.
    apply (NoDup_map_sub fst ranked CATEGORY_TAGS).
    + apply category_names_NoDup.
    + apply (Permutation_NoDup (Permutation_sym Hperm)).
      unfold scored_categories. apply NoDup_filter.
      apply (NoDup_map_inv fst), category_names_NoDup.
    + intros e He. now apply Hranked in He.
  - rewrite length_firstn, length_map. f_equal.
    rewrite (Permutation_length Hperm).
    unfold category_names, scored_categories.
    assert (Hlen : forall table : list (string * list string),
               incl table CATEGORY_TAGS ->
               length (filter (fun entry => Nat.ltb 0 (entry_score blob entry)) table)
               = length (filter (fun category =>
                                   (0 <? keyword_score blob (keywords_of category))%Z)
                                (map fst table))).
    { induction table as [|e table IH]; intros Hincl; [reflexivity|].
      simpl. rewrite (Hscore e) by (apply Hincl; now left). unfold key.
      assert (IH' := IH (fun x Hx => Hincl x (or_intror Hx))).
      destruct (Nat.ltb_spec 0 (entry_score blob e));
        destruct (Z.ltb_spec 0 (Z.of_nat (entry_score blob e)));
        try lia; simpl; now rewrite IH'. }
    apply Hlen. intros e He. exact He.
  - intros category Hin. apply firstn_In_keeps in Hin.
    apply in_map_iff in Hin as [e [<- He]]. apply Hranked in He as [He Hpos].
    split; [unfold category_names; now apply in_map|].
    now rewrite (Hscore e He).
  - intros category omitted Hin Hom Hout.
    rewrite firstn_map in Hin. apply in_map_iff in Hin as [e [<- He]].
    unfold category_names in Hom. apply in_map_iff in Hom as [e' [<- He']].
    destruct (proj1 (Hranked e) (firstn_In_keeps 3 ranked e He)) as [Hin_e _].
    rewrite (Hscore e Hin_e), (Hscore e' He').
    destruct (Z.ltb_spec 0 (key e')) as [Hpos|Hzero].
    + assert (Hr : In e' ranked) by (apply Hranked; now split).
      rewrite <- (firstn_skipn 3 ranked) in Hr. apply in_app_or in Hr as [Hr|Hr].
      * exfalso. apply Hout. rewrite firstn_map. now apply in_map.
      * apply (StronglySorted_split _ 3 ranked Hsorted e e' He Hr).
    + assert (0 <= key e)%Z by (unfold key; lia). lia.
Qed.

Lemma map_chars_app (f : ascii -> ascii) (s t : string) :
  map_chars f (s ++ t)%string = (map_chars f s ++ map_chars f t)%string.
Proof. induction s as [|c s IH]; simpl; [reflexivity|]. now rewrite IH. Qed.

Lemma toLowerCase_join (tags : list string) :
  toLowerCase (join " " tags) = toLowerCase (join " " (map toLowerCase tags)).
Proof.
  unfold join, toLowerCase.
  induction tags as [|t tags IH]; [reflexivity|].
  destruct tags as [|t' tags].
  - simpl. rewrite map_chars_fuse. symmetry. apply map_chars_ext, lower_char_idem.
  - change (map_chars lower_char (t ++ " " ++ String.concat " " (t' :: tags))%string
            = map_chars lower_char
                (map_chars lower_char t ++ " "
                 ++ String.concat " " (map (map_chars lower_char) (t' :: tags)))%string).
    rewrite !map_chars_app, IH, map_chars_fuse.
    f_equal. apply map_chars_ext. intros c. symmetry. apply lower_char_idem.
Qed.

(** X11: the Category Suggester ignores letter case: lowercasing the description
    and every tag beforehand does not change the suggestion. *)
Theorem suggestCategories_case_insensitive (description : string)
        (tags : list string) :
  suggestCategories (toLowerCase description) (map toLowerCase tags)
  = suggestCategories description tags.
Proof.
  unfold suggestCategories, suggestCategories_body.
  assert (E : toLowerCase (toLowerCase description ++ " "
                           ++ join " " (map toLowerCase tags))
              = toLowerCase (description ++ " " ++ join " " tags)).
  { unfold toLowerCase at 1 4. rewrite !map_chars_app.
    fold (toLowerCase (toLowerCase description)).
    fold (toLowerCase (join " " (map toLowerCase tags))).
    fold (toLowerCase description). fold (toLowerCase (join " " tags)).
    now rewrite toLowerCase_idem, <- toLowerCase_join. }
  now rewrite E.
Qed.

Lemma all_chars_app (P : ascii -> bool) (s t : string) :
  all_chars P (s ++ t)%string = all_chars P s && all_chars P t.
Proof.
  induction s as [|c s IH]; simpl; [reflexivity|]. now rewrite IH, andb_assoc.
Qed.

Lemma includes_uppercase (s : string) :
  all_chars lower_fixed s = true -> includes s "AI" = false.
Proof.
  intros H. destruct (includes s "AI") eqn:E; [|reflexivity].
  apply includes_substring in E as [pre [post ->]].
  rewrite all_chars_app in H. apply andb_true_iff in H as [_ H].
  simpl in H. discriminate.
Qed.

Lemma length_append (s t : string) :
  String.length (s ++ t)%string = String.length s + String.length t.
Proof. induction s as [|c s IH]; simpl; [reflexivity|]. now rewrite IH. Qed.

Lemma includes_length (s t : string) :
  includes s t = true -> String.length t <= String.length s.
Proof.
  intros H. apply includes_substring in H as [pre [post ->]].
  rewrite !length_append. lia.
Qed.

Lemma filter_without {A : Type} (p : A -> bool) (l l' : list A) (x : A) :
  p x = false -> length (filter p (l ++ x :: l')) <= length l + length l'.
Proof.
  intros H. rewrite filter_app, length_app. cbn [filter]. rewrite H.
  pose proof (filter_length_le p l). pose proof (filter_length_le p l'). lia.
Qed.

(** X12: the keyword AI is dead: the texts that the keywords are searched in are
    lowercased first, so the uppercase keyword of the technology list is
    never counted by the Category Suggester, where technology scores at
    most 8 with its 9 keywords, and never selected by the Tag Generator,
    whose frequent words are all longer than the keyword. *)
Theorem keyword_AI_never_matches (stopwords : list string)
        (description : string) (tags : list string) :
  let blob := toLowerCase (description ++ " " ++ join " " tags) in
  let cleanText := cleanText_of description in
  let sortedWords :=
    sortedWords_of
      (wordFreq_of
         (filteredTokens_of stopwords (Natural.WordTokenizer_tokenize cleanText))) in
  In "AI" (keywords_of "technology")
  /\ includes blob "AI" = false
  /\ (keyword_score blob (keywords_of "technology") <= 8)%Z
  /\ includes cleanText "AI" = false
  /\ ~ In "AI" (relevantCategoryTags_of cleanText sortedWords
                                        (keywords_of "technology")).
Proof.
  cbv zeta.
  pose proof (includes_uppercase _ (lower_fixed_cleanText description)) as Hc.
  pose proof (includes_uppercase _
                (lower_fixed_toLowerCase (description ++ " " ++ join " " tags))) as Hb.
  split; [vm_compute; tauto|].
  split; [exact Hb|]. split; [|split; [exact Hc|]].
  - rewrite keyword_score_count. unfold score.
    change (keywords_of "technology")
      with (["tech"; "gadget"; "software"; "hardware"; "innovation"; "digital"]
            ++ "AI" :: ["coding"; "programming"]).
    match goal with
    | |- (Z.of_nat (length (filter ?p (?l ++ ?k :: ?l'))) <= 8)%Z =>
        pose proof (filter_without p l l' k Hb) as H1
    end.
    cbn [length Nat.add] in H1. lia.
  - unfold relevantCategoryTags_of. rewrite filter_In, Hc. intros [_ H].
    cbn [orb] in H. apply existsb_exists in H as [word [Hword Hinc]].
    apply includes_length in Hinc. simpl in Hinc.
    unfold sortedWords_of in Hword. apply top_keys_incl in Hword.
    unfold wordFreq_of in Hword. apply count_fold_keys in Hword as [[]|Hword].
    unfold filteredTokens_of in Hword. apply filter_In in Hword as [_ Hword].
    apply andb_true_iff in Hword as [Hword _].
    apply andb_true_iff in Hword as [Hword _].
    apply Nat.ltb_lt in Hword. lia.
Qed.

(* ===================================================================== *)
(** ** Key-Phrase Extractor: the phrases and their ranking *)
(* ===================================================================== *)

Lemma skipn_cons_In {A : Type} (n : nat) (l : list A) (x : A) :
  In x (skipn n l) -> In x l.
Proof.
  intros H. rewrite <- (firstn_skipn n l). apply in_or_app. now right.
Qed.

(** Two consecutive words from index [i]. *)
Lemma slice_pair (words : list string) (i : nat) :
  i + 1 < length words ->
  exists a b, slice words i (i + 2) = [a; b] /\ In a words /\ In b words.
Proof.
  intros Hi. unfold slice. replace (i + 2 - i) with 2 by lia.
  pose proof (length_skipn i words) as Hlen.
  pose proof (skipn_cons_In i words) as Hin.
  destruct (skipn i words) as [|a [|b rest]]; simpl in Hlen; try lia.
  exists a, b. split; [reflexivity|]. split; apply Hin; simpl; auto.
Qed.

(** Three consecutive words from index [i]. *)
Lemma slice_triple (words : list string) (i : nat) :
  i + 2 < length words ->
  exists a b c,
    slice words i (i + 3) = [a; b; c] /\ In a words /\ In b words /\ In c words.
Proof.
  intros Hi. unfold slice. replace (i + 3 - i) with 3 by lia.
  pose proof (length_skipn i words) as Hlen.
  pose proof (skipn_cons_In i words) as Hin.
  destruct (skipn i words) as [|a [|b [|c rest]]]; simpl in Hlen; try lia.
  exists a, b, c. split; [reflexivity|]. repeat split; apply Hin; simpl; auto.
Qed.

Lemma words_of_long (stopwords : list string) (sentence word : string) :
  In word (words_of stopwords sentence) -> 2 < String.length word.
Proof.
  unfold words_of. intros H. apply filter_In in H as [_ H].
  apply andb_true_iff in H as [H _]. now apply Nat.ltb_lt.
Qed.

(** X13: the length thresholds of the loop never reject anything: the words of
    a sentence are longer than 2, so a bigram has more than 5 and a trigram
    more than 8 characters, and the pool of a sentence is every trigram and
    every bigram of consecutive filtered words, index by index. *)
Theorem ngram_thresholds_never_reject (stopwords : list string)
        (sentence : string) (phrases : list string) :
  let words := words_of stopwords sentence in
  ngram_loop words phrases
  = phrases
    ++ flat_map (fun i =>
                   (if Nat.ltb (i + 2) (length words)
                    then [trigram_at words i] else [])
                   ++ [bigram_at words i])
                (seq 0 (length words - 1)).
Proof.
  cbv zeta. set (words := words_of stopwords sentence).
  assert (Hlong : forall w, In w words -> 2 < String.length w)
    by (intros w; apply words_of_long).
  unfold ngram_loop. rewrite ngram_fold_app. f_equal.
  replace (Z.to_nat (Z.of_nat (length words) - 1)) with (length words - 1) by lia.
  apply flat_map_agree. intros i Hi. apply in_seq in Hi.
  unfold ngram_step. fold (trigram_at words i). fold (bigram_at words i).
  assert (Hbi : Nat.ltb 5 (String.length (bigram_at words i)) = true).
  { apply Nat.ltb_lt. unfold bigram_at.
    destruct (slice_pair words i) as [a [b [-> [Ha Hb]]]]; [lia|].
    apply Hlong in Ha, Hb.
    change (join " " [a; b]) with (a ++ " " ++ b)%string.
    rewrite !length_append. simpl. lia. }
  rewrite Hbi.
  destruct (Z.ltb_spec (Z.of_nat i) (Z.of_nat (length words) - 2)) as [H2|H2];
    destruct (Nat.ltb_spec (i + 2) (length words)) as [H3|H3]; try lia;
    [|reflexivity].
  assert (Htri : Nat.ltb 8 (String.length (trigram_at words i)) = true).
  { apply Nat.ltb_lt. unfold trigram_at.
    destruct (slice_triple words i H3) as [a [b [c [-> [Ha [Hb Hc]]]]]].
    apply Hlong in Ha, Hb, Hc.
    change (join " " [a; b; c]) with (a ++ " " ++ b ++ " " ++ c)%string.
    rewrite !length_append. simpl. lia. }
  rewrite Htri. reflexivity.
Qed.

(** Every phrase of the pool contains a space. *)
Lemma phrase_has_space (stopwords : list string) (sentences : list string)
      (phrase : string) :
  In phrase (phrases_of stopwords sentences) ->
  exists pre post, phrase = (pre ++ " " ++ post)%string.
Proof.
  rewrite phrases_of_flat_map, in_flat_map. intros [sentence [_ H]].
  unfold ngram_loop in H. rewrite ngram_fold_app in H. simpl in H.
  apply in_flat_map in H as [i [Hi H]]. apply in_seq in Hi.
  apply ngram_step_In in H as [[Hb [-> _]]|[-> _]].
  - unfold trigram_at.
    destruct (slice_triple _ i Hb) as [a [b [c [-> _]]]].
    exists a, (b ++ " " ++ c)%string. reflexivity.
  - unfold bigram_at.
    destruct (slice_pair (words_of stopwords sentence) i) as [a [b [-> _]]]; [lia|].
    exists a, b. reflexivity.
Qed.

(** A key with a space names neither an inherited property nor an array
    index. *)
Lemma spaced_key_plain (pre post : string) :
  let key := (pre ++ " " ++ post)%string in
  assoc key Object_prototype = None /\ is_array_index key = false.
Proof.
  cbv zeta.
  assert (Hsp : all_chars (fun c => negb (Nat.eqb (code c) 32))
                          (pre ++ " " ++ post) = false).
  { rewrite all_chars_app. simpl. apply andb_false_r. }
  split.
  - destruct (assoc (pre ++ " " ++ post)%string Object_prototype) as [v|] eqn:E;
      [|reflexivity].
    apply assoc_In in E.
    assert (Hall : forallb (fun e : string * value =>
                     all_chars (fun c => negb (Nat.eqb (code c) 32)) (fst e))
                     Object_prototype = true) by (vm_compute; reflexivity).
    rewrite forallb_forall in Hall. specialize (Hall _ E). cbn [fst] in Hall.
    rewrite Hsp in Hall. discriminate.
  - destruct (is_array_index (pre ++ " " ++ post)%string) eqn:E; [|reflexivity].
    unfold is_array_index, all_digits in E.
    apply andb_true_iff in E as [E _]. apply andb_true_iff in E as [E _].
    apply andb_true_iff in E as [_ E].
    apply (all_chars_impl _ (fun c => negb (Nat.eqb (code c) 32))) in E;
      [rewrite Hsp in E; discriminate|].
    intros c. destruct c as [[] [] [] [] [] [] [] []]; vm_compute; congruence.
Qed.

(** X14: the ranking of the Key-Phrase Extractor is exact on every description:
    the result is the first [maxPhrases] of the distinct phrases of the pool
    in descending order of their number of occurrences, phrases of equal
    frequency in the order of their first occurrence.  A phrase contains a
    space, so it never meets an inherited property of the count object. *)
Theorem extractKeyPhrases_ranking (stopwords : list string) (text : string)
        (maxPhrases : nat) :
  let phrases := phrases_of stopwords (sentences_of text) in
  exists ranked,
    extractKeyPhrases stopwords (VStr text) (Z.of_nat maxPhrases)
    = Fulfilled (firstn maxPhrases ranked)
    /\ NoDup ranked
    /\ (forall phrase, In phrase ranked <-> In phrase phrases)
    /\ StronglySorted (fun a b => frequency phrases b <= frequency phrases a) ranked
    /\ (forall k,
          filter (fun phrase => Nat.eqb (frequency phrases phrase) k) ranked
          = filter (fun phrase => Nat.eqb (frequency phrases phrase) k)
                   (Set_of phrases)).
Proof.
  intros phrases. exists (ranked_by_frequency phrases). split.
  - unfold extractKeyPhrases. rewrite extractKeyPhrases_body_string.
    cbn [async_try_catch]. f_equal. apply top_keys_ranking.
    intros key Hkey.
    destruct (phrase_has_space stopwords _ key Hkey) as [pre [post ->]].
    apply spaced_key_plain.
  - apply ranked_by_frequency_spec.
Qed.

(* ===================================================================== *)
(** ** The vlog controller *)
(* ===================================================================== *)

Section VlogControllerFacts.
Import VlogController.
Variable stopwords : list string.

(** What the handlers get from the Tag Generator, which they call with the
    description alone: at most 8 tags of the category [other]. *)
Lemma generateTags_default (v : value) :
  exists generated,
    generateTags stopwords v "other" 8 = Fulfilled generated
    /\ length generated <= 8
    /\ NoDup generated
    /\ Forall (fun tag => lowercase tag /\ 3 <= String.length tag) generated.
Proof.
  destruct (generateTags_cases stopwords v "other" 8)
    as [H|[text [-> H]]]; cbv zeta in *; rewrite H.
  - exists []. repeat split; [simpl; lia|constructor|constructor].
  - eexists. split; [reflexivity|]. split; [|split].
    + pose proof (uniqueTags_length
                    (allPotentialTags_of (cleanText_of text)
                       (sortedWords_of (wordFreq_of
                          (filteredTokens_of stopwords
                             (Natural.WordTokenizer_tokenize (cleanText_of text)))))
                       (relevantCategoryTags_of (cleanText_of text)
                          (sortedWords_of (wordFreq_of
                             (filteredTokens_of stopwords
                                (Natural.WordTokenizer_tokenize (cleanText_of text)))))
                          (keywords_of "other"))) 8) as Hlen.
      lia.
    + apply uniqueTags_NoDup.
    + apply Forall_forall. intros tag Htag.
      apply uniqueTags_incl in Htag as [Htag Hlen]. split; [|assumption].
      apply allPotentialTags_sources in Htag as [Hk|[Hw|Hc]].
      * eapply table_keywords_lowercase; eauto using keywords_of_in_table.
      * apply sortedWords_are_tokens in Hw. eapply tokens_lowercase, Hw.
      * now apply COMMON_TAGS_lowercase.
Qed.

(** The [try] block with the call of the Tag Generator resolved. *)
Lemma tagging_try_eq (b : body) (generated : list string) :
  generateTags stopwords (description b) "other" 8 = Fulfilled generated ->
  tagging_try stopwords b
  = match spread (or_else (tags b) (VArr [])) with
    | Normal own =>
        Normal (with_aiGeneratedTags (with_tags b (VArr (own ++ generated)))
                                     (VBool true))
    | Throw e => Throw e
    end.
Proof. intros H. unfold tagging_try. rewrite H. reflexivity. Qed.

(** X16: the tagging step of [createVlog], when it runs: the tags of the request
    stay in front and in order, at most 8 generated tags (lowercase, at
    least 3 characters, no tag twice among them) come after them, and the
    vlog is flagged as AI-tagged, also when no tag was generated.  The
    [catch] is reached only by tags that are not iterable, never by the
    Tag Generator; then the tags stay and the flag is false. *)
Theorem createVlog_tagging_outcome (env : environment) (b : body) (n : nat) :
  AI_TAGGING_ENABLED env = Some "true" ->
  truthy (description b) = true ->
  length_of (description b) = Some n ->
  length_ge n (MIN_DESCRIPTION_LENGTH env) = true ->
  exists generated,
    generateTags stopwords (description b) "other" 8 = Fulfilled generated
    /\ length generated <= 8
    /\ NoDup generated
    /\ Forall (fun tag => lowercase tag /\ 3 <= String.length tag) generated
    /\ createVlog_tagging stopwords env b
       = match spread (or_else (tags b) (VArr [])) with
         | Normal own =>
             with_aiGeneratedTags (with_tags b (VArr (own ++ generated)))
                                  (VBool true)
         | Throw _ => with_aiGeneratedTags b (VBool false)
         end.
Proof.
  intros Hen Htruthy Hlen Hge.
  destruct (generateTags_default (description b)) as [generated [Hg [H8 [Hnd Hall]]]].
  exists generated. repeat split; try assumption.
  unfold createVlog_tagging, tagging_enabled.
  rewrite Hen, Htruthy, Hlen, Hge. cbn [String.eqb Ascii.eqb Bool.eqb andb].
  rewrite (tagging_try_eq b generated Hg).
  now destruct (spread (or_else (tags b) (VArr []))).
Qed.

(** X17: the tagging step of [updateVlog] runs for every truthy description,
    whatever its length; it appends the generated tags like [createVlog],
    and tags that are not iterable leave the request as it was. *)
Theorem updateVlog_tagging_outcome (env : environment) (b : body) :
  AI_TAGGING_ENABLED env = Some "true" ->
  truthy (description b) = true ->
  exists generated,
    generateTags stopwords (description b) "other" 8 = Fulfilled generated
    /\ length generated <= 8
    /\ NoDup generated
    /\ Forall (fun tag => lowercase tag /\ 3 <= String.length tag) generated
    /\ updateVlog_tagging stopwords env b
       = match spread (or_else (tags b) (VArr [])) with
         | Normal own =>
             with_aiGeneratedTags (with_tags b (VArr (own ++ generated)))
                                  (VBool true)
         | Throw _ => b
         end.
Proof.
  intros Hen Htruthy.
  destruct (generateTags_default (description b)) as [generated [Hg [H8 [Hnd Hall]]]].
  exists generated. repeat split; try assumption.
  unfold updateVlog_tagging, tagging_enabled.
  rewrite Hen, Htruthy. cbn [String.eqb Ascii.eqb Bool.eqb andb].
  rewrite (tagging_try_eq b generated Hg).
  now destruct (spread (or_else (tags b) (VArr []))).
Qed.

(** The tagging steps write [tags] and [aiGeneratedTags] only. *)
Lemma tagging_try_fields (b b' : body) :
  tagging_try stopwords b = Normal b' ->
  author b' = author b /\ images b' = images b
  /\ captions b' = captions b /\ description b' = description b.
Proof.
  unfold tagging_try.
  destruct (await (generateTags stopwords (description b) "other" 8)) as [g|e];
    cbn [bind]; [|discriminate].
  destruct (spread (or_else (tags b) (VArr []))) as [own|e]; cbn [bind];
    [|discriminate].
  intros [= <-]. repeat split.
Qed.

Lemma createVlog_tagging_fields (env : environment) (b : body) :
  let b' := createVlog_tagging stopwords env b in
  author b' = author b /\ images b' = images b
  /\ captions b' = captions b /\ description b' = description b.
Proof.
  cbv zeta. unfold createVlog_tagging.
  destruct (_ && _ && _); [|repeat split].
  destruct (tagging_try stopwords b) as [b'|e] eqn:E; [|repeat split].
  now apply tagging_try_fields.
Qed.

Lemma updateVlog_tagging_fields (env : environment) (b : body) :
  let b' := updateVlog_tagging stopwords env b in
  author b' = author b /\ images b' = images b
  /\ captions b' = captions b /\ description b' = description b.
Proof.
  cbv zeta. unfold updateVlog_tagging.
  destruct (_ && _); [|repeat split].
  destruct (tagging_try stopwords b) as [b'|e] eqn:E; [|repeat split].
  now apply tagging_try_fields.
Qed.

Lemma map_indexed_length {A B : Type} (f : A -> nat -> B) (i : nat) (arr : list A) :
  length (map_indexed f i arr) = length arr.
Proof.
  revert i. induction arr as [|x arr IH]; intros i; simpl; [reflexivity|].
  now rewrite IH.
Qed.

Lemma uploaded_images_url (caps : value) (first : nat) (files : list file) :
  map url (uploaded_images caps first files) = map path files.
Proof.
  unfold uploaded_images. generalize 0 as i.
  induction files as [|f files IH]; intros i; simpl; [reflexivity|].
  now rewrite IH.
Qed.

Lemma uploaded_images_order (caps : value) (first : nat) (files : list file) :
  map order (uploaded_images caps first files) = seq first (length files).
Proof.
  unfold uploaded_images.
  assert (H : forall i,
             map order
                 (map_indexed (fun file j =>
                                 {| url := path file;
                                    publicId := or_string (filename file) (public_id file);
                                    caption := caption_at caps j;
                                    order := first + j |}) i files)
             = seq (first + i) (length files)).
  { induction files as [|f files IH]; intros i; simpl; [reflexivity|].
    rewrite IH. now rewrite Nat.add_succ_r. }
  rewrite H. now rewrite Nat.add_0_r.
Qed.

(** X18: the document [createVlog] creates: its author is always the signed-in
    user, whatever the request says; uploaded files replace the images of
    the request, one image for each file in upload order, numbered from 0;
    without files the images of the request stay. *)
Theorem createVlog_document (env : environment) (user_id : string)
        (files : option (list file)) (b : body) :
  let document := createVlog stopwords env user_id files b in
  author document = VStr user_id
  /\ description document = description b
  /\ match files with
     | Some (f :: fs) =>
         exists uploaded,
           images document = ArrayOf (map ImageObject uploaded)
           /\ map url uploaded = map path (f :: fs)
           /\ map order uploaded = seq 0 (length (f :: fs))
     | _ => images document = images b
     end.
Proof.
  cbv zeta. unfold createVlog.
  match goal with
  | |- context [createVlog_tagging stopwords env ?b2] =>
      destruct (createVlog_tagging_fields env b2) as [Ha [Hi [_ Hd]]]
  end.
  rewrite Ha, Hd, Hi.
  destruct files as [[|f fs]|]; cbn [has_files]; repeat split.
  eexists. split; [reflexivity|]. split.
  - apply uploaded_images_url.
  - apply uploaded_images_order.
Qed.

Lemma characters_length (s : string) : length (characters s) = String.length s.
Proof. induction s as [|c s IH]; simpl; [reflexivity|]. now rewrite IH. Qed.

(** What can be spread has a length, the number of its elements. *)
Lemma images_spread_length (v : images_field) (kept : list element) :
  images_spread v = Normal kept -> images_length v = Some (length kept).
Proof.
  destruct v as [elems|v]; cbn [images_spread images_length].
  - now intros [= ->].
  - destruct v; cbn [spread bind length_of]; try discriminate; intros [= <-];
      now rewrite length_map, ?characters_length.
Qed.

(** X19: an update that [updateVlog] lets through, when the images of the
    request are missing, falsy or an array: the vlog exists, the requester
    is its author or an admin, and the update carries an array of between 1
    and 10 elements: those of the request (the images of the stored vlog
    when the request has none), in order, followed by one image for each
    uploaded file, numbered on from the number of elements kept. *)
Theorem updateVlog_accepted (env : environment) (found : option vlog)
        (requester : user) (files : option (list file)) (b document : body) :
  updateVlog stopwords env found requester files b = Update document ->
  images_truthy (images b) = false \/ (exists elems, images b = ArrayOf elems) ->
  exists stored kept uploaded,
    found = Some stored
    /\ (vlog_author stored = id requester \/ role requester = "admin")
    /\ kept = match images b with
              | ArrayOf elems => elems
              | Plain _ => map ImageObject (vlog_images stored)
              end
    /\ images document = ArrayOf (kept ++ map ImageObject uploaded)
    /\ 1 <= length (kept ++ map ImageObject uploaded) <= 10
    /\ map url uploaded
       = map path (if has_files files
                   then match files with Some l => l | None => [] end
                   else [])
    /\ map order uploaded = seq (length kept) (length uploaded)
    /\ description document = description b.
Proof.
  unfold updateVlog. destruct found as [stored|]; [|discriminate].
  intros H Himages.
  assert (Hauth : vlog_author stored = id requester \/ role requester = "admin").
  { destruct (String.eqb_spec (vlog_author stored) (id requester)) as [Hau|Hau];
      [now left|].
    destruct (String.eqb_spec (role requester) "admin") as [Hro|Hro];
      [now right|]. discriminate H. }
  assert (Hgo : negb (vlog_author stored =? id requester)
                && negb (role requester =? "admin") = false).
  { destruct Hauth as [Hau|Hro].
    - rewrite Hau, String.eqb_refl. reflexivity.
    - rewrite Hro, String.eqb_refl. apply andb_false_r. }
  rewrite Hgo in H. clear Hgo.
  set (kept := match images b with
               | ArrayOf elems => elems
               | Plain _ => map ImageObject (vlog_images stored)
               end).
  assert (Hkept : (if images_truthy (images b) then images b
                   else ArrayOf (map ImageObject (vlog_images stored)))
                  = ArrayOf kept).
  { unfold kept. destruct Himages as [Hfalsy|[elems ->]]; [|reflexivity].
    rewrite Hfalsy. destruct (images b); [discriminate Hfalsy|reflexivity]. }
  rewrite Hkept in H. cbn [images_spread bind] in H.
  set (uploaded := if has_files files
                   then uploaded_images (captions b) (length kept)
                          (match files with Some l => l | None => [] end)
                   else []).
  assert (Hall : (if has_files files
                  then Normal (ArrayOf (kept ++ map ImageObject
                                 (uploaded_images (captions b) (length kept)
                                    (match files with Some l => l | None => [] end))))
                  else Normal (ArrayOf kept))
                 = Normal (ArrayOf (kept ++ map ImageObject uploaded))).
  { unfold uploaded. destruct (has_files files); [reflexivity|].
    cbn [map]. now rewrite app_nil_r. }
  rewrite Hall in H. cbn [images_length] in H.
  destruct (Nat.ltb_spec 10 (length (kept ++ map ImageObject uploaded)))
    as [H10|H10]; [discriminate|].
  destruct (Nat.eqb_spec (length (kept ++ map ImageObject uploaded)) 0)
    as [H0|H0]; [discriminate|].
  injection H as <-.
  destruct (updateVlog_tagging_fields env
              (with_images b (ArrayOf (kept ++ map ImageObject uploaded))))
    as [_ [Hi [_ Hd]]].
  exists stored, kept, uploaded.
  repeat split; try assumption; try reflexivity; try lia.
  - unfold uploaded. destruct (has_files files);
      [apply uploaded_images_url|reflexivity].
  - unfold uploaded. destruct (has_files files); [|reflexivity].
    unfold uploaded_images at 2. rewrite map_indexed_length.
    apply uploaded_images_order.
Qed.

(** The image checks of [updateVlog] read [length] only: images that are no
    array and have no length (a number, [true], a plain object) pass both
    checks as they are when no file is uploaded, and with a file the spread
    throws. *)
Lemma updateVlog_images_no_array (env : environment) (stored : vlog)
      (requester : user) (b : body) (v : value) (f : file) (fs : list file) :
  vlog_author stored = id requester ->
  images b = Plain v ->
  truthy v = true ->
  length_of v = None ->
  updateVlog stopwords env (Some stored) requester None b
  = Update (updateVlog_tagging stopwords env (with_images b (Plain v)))
  /\ exists e,
       updateVlog stopwords env (Some stored) requester (Some (f :: fs)) b
       = Thrown e.
Proof.
  intros Hau Hb Htruthy Hlen. unfold updateVlog.
  rewrite Hau, String.eqb_refl, Hb. cbn [negb andb images_truthy has_files].
  rewrite Htruthy. cbn [images_length images_spread]. rewrite Hlen. split.
  - reflexivity.
  - destruct v; try discriminate Hlen; cbn [spread bind]; eauto.
Qed.

End VlogControllerFacts.

Lemma createVlog_tagging_outcome_witness :
  let env := {| VlogController.AI_TAGGING_ENABLED := Some "true";
                VlogController.MIN_DESCRIPTION_LENGTH := VlogController.Finite (10 # 1) |} in
  let b := {| VlogController.author := VUndefined;
              VlogController.images := VlogController.Plain VUndefined;
              VlogController.captions := VUndefined;
              VlogController.description := VStr "A cooking vlog: my kitchen, my recipe";
              VlogController.tags := VArr ["home"];
              VlogController.aiGeneratedTags := VUndefined |} in
  exists generated,
    generateTags Natural.stopwords (VStr "A cooking vlog: my kitchen, my recipe")
                 "other" 8 = Fulfilled generated
    /\ length generated <= 8
    /\ NoDup generated
    /\ Forall (fun tag => lowercase tag /\ 3 <= String.length tag) generated
    /\ VlogController.createVlog_tagging Natural.stopwords env b
       = VlogController.with_aiGeneratedTags
           (VlogController.with_tags b (VArr ("home" :: generated)))
           (VBool true).
Proof.
  intros env b.
  apply (createVlog_tagging_outcome Natural.stopwords env b 37);
    vm_compute; reflexivity.
Defined.

Lemma updateVlog_tagging_outcome_witness :
  let env := {| VlogController.AI_TAGGING_ENABLED := Some "true";
                VlogController.MIN_DESCRIPTION_LENGTH := VlogController.NaN |} in
  let b := {| VlogController.author := VUndefined;
              VlogController.images := VlogController.Plain VUndefined;
              VlogController.captions := VUndefined;
              VlogController.description := VStr "vlog";
              VlogController.tags := VNum 7;
              VlogController.aiGeneratedTags := VUndefined |} in
  exists generated,
    generateTags Natural.stopwords (VStr "vlog") "other" 8 = Fulfilled generated
    /\ length generated <= 8
    /\ NoDup generated
    /\ Forall (fun tag => lowercase tag /\ 3 <= String.length tag) generated
    /\ VlogController.updateVlog_tagging Natural.stopwords env b = b.
Proof.
  intros env b.
  apply (updateVlog_tagging_outcome Natural.stopwords env b);
    vm_compute; reflexivity.
Defined.

Lemma updateVlog_accepted_witness :
  let first := {| VlogController.url := "https://img.example/1.jpg";
                  VlogController.publicId := Some "one";
                  VlogController.caption := "first";
                  VlogController.order := 0 |} in
  let upload := {| VlogController.path := "https://img.example/2.jpg";
                   VlogController.filename := Some "two";
                   VlogController.public_id := None |} in
  let b := {| VlogController.author := VUndefined;
              VlogController.images := VlogController.Plain VUndefined;
              VlogController.captions := VArr ["second"];
              VlogController.description := VUndefined;
              VlogController.tags := VUndefined;
              VlogController.aiGeneratedTags := VUndefined |} in
  let found := Some {| VlogController.vlog_author := "u1";
                       VlogController.vlog_images := [first] |} in
  let document :=
    VlogController.with_images b
      (VlogController.ArrayOf
         [VlogController.ImageObject first;
          VlogController.ImageObject
            {| VlogController.url := "https://img.example/2.jpg";
               VlogController.publicId := Some "two";
               VlogController.caption := "second";
               VlogController.order := 1 |}]) in
  exists stored kept uploaded,
    found = Some stored
    /\ (VlogController.vlog_author stored = "u1" \/ "user" = "admin")
    /\ kept = map VlogController.ImageObject (VlogController.vlog_images stored)
    /\ VlogController.images document
       = VlogController.ArrayOf (kept ++ map VlogController.ImageObject uploaded)
    /\ 1 <= length (kept ++ map VlogController.ImageObject uploaded) <= 10
    /\ map VlogController.url uploaded = ["https://img.example/2.jpg"]
    /\ map VlogController.order uploaded = seq (length kept) (length uploaded)
    /\ VlogController.description document = VUndefined.
Proof.
  intros first upload b found document.
  apply (updateVlog_accepted Natural.stopwords
           {| VlogController.AI_TAGGING_ENABLED := None;
              VlogController.MIN_DESCRIPTION_LENGTH := VlogController.NaN |}
           found
           {| VlogController.id := "u1"; VlogController.role := "user" |}
           (Some [upload]) b document).
  - vm_compute. reflexivity.
  - left. vm_compute. reflexivity.
Defined.

(* ===================================================================== *)
(** ** Key-Phrase Extractor: letter case *)
(* ===================================================================== *)

Lemma lower_char_classes (c : ascii) :
  is_terminator (lower_char c) = is_terminator c
  /\ is_space (lower_char c) = is_space c.
Proof. destruct c as [[] [] [] [] [] [] [] []]; vm_compute; split; reflexivity. Qed.

Lemma split_runs_map (f : ascii -> ascii) (sep : ascii -> bool) (b : bool) (s : string) :
  (forall c, sep (f c) = sep c) ->
  split_runs sep b (map_chars f s) = map (map_chars f) (split_runs sep b s).
Proof.
  intros Hsep. revert b. induction s as [|c s IH]; intros b; [reflexivity|].
  cbn [map_chars split_runs]. rewrite Hsep.
  destruct (sep c).
  - destruct b; [apply IH|]. cbn [map map_chars]. now rewrite IH.
  - rewrite IH. now destruct (split_runs sep false s).
Qed.

Lemma trimStart_map (f : ascii -> ascii) (s : string) :
  (forall c, is_space (f c) = is_space c) ->
  trimStart (map_chars f s) = map_chars f (trimStart s).
Proof.
  intros Hsp. induction s as [|c s IH]; [reflexivity|].
  cbn [map_chars trimStart]. rewrite Hsp. now destruct (is_space c).
Qed.

Lemma trimEnd_map (f : ascii -> ascii) (s : string) :
  (forall c, is_space (f c) = is_space c) ->
  trimEnd (map_chars f s) = map_chars f (trimEnd s).
Proof.
  intros Hsp. induction s as [|c s IH]; [reflexivity|].
  cbn [map_chars trimEnd]. rewrite IH, Hsp.
  destruct (trimEnd s); [now destruct (is_space c)|reflexivity].
Qed.

Lemma length_map_chars (f : ascii -> ascii) (s : string) :
  String.length (map_chars f s) = String.length s.
Proof. induction s as [|c s IH]; simpl; [reflexivity|]. now rewrite IH. Qed.

Lemma filter_map_comm {A B : Type} (p : B -> bool) (g : A -> B) (l : list A) :
  filter p (map g l) = map g (filter (fun x => p (g x)) l).
Proof.
  induction l as [|x l IH]; simpl; [reflexivity|].
  rewrite IH. now destruct (p (g x)).
Qed.

Lemma flat_map_map_comm {A B C : Type} (f : B -> list C) (g : A -> B) (l : list A) :
  flat_map f (map g l) = flat_map (fun x => f (g x)) l.
Proof. induction l as [|x l IH]; simpl; [reflexivity|]. now rewrite IH. Qed.

Lemma sentences_of_toLowerCase (text : string) :
  sentences_of (toLowerCase text) = map toLowerCase (sentences_of text).
Proof.
  unfold sentences_of, split, toLowerCase.
  rewrite split_runs_map by (intros c; apply lower_char_classes).
  rewrite filter_map_comm. f_equal. apply filter_ext. intros s.
  unfold trim.
  rewrite trimStart_map, trimEnd_map, length_map_chars
    by (intros c; apply lower_char_classes).
  reflexivity.
Qed.

(** X15: the Key-Phrase Extractor ignores letter case: lowercasing the
    description beforehand does not change the result. *)
Theorem extractKeyPhrases_case_insensitive (stopwords : list string)
        (text : string) (maxPhrases : Z) :
  extractKeyPhrases stopwords (VStr (toLowerCase text)) maxPhrases
  = extractKeyPhrases stopwords (VStr text) maxPhrases.
Proof.
  unfold extractKeyPhrases. rewrite !extractKeyPhrases_body_string.
  rewrite sentences_of_toLowerCase, !phrases_of_flat_map, flat_map_map_comm.
  assert (E : forall sentence,
             words_of stopwords (toLowerCase sentence) = words_of stopwords sentence)
    by (intros sentence; unfold words_of; now rewrite toLowerCase_idem).
  rewrite (flat_map_agree
             (fun sentence => ngram_loop (words_of stopwords (toLowerCase sentence)) [])
             (fun sentence => ngram_loop (words_of stopwords sentence) []));
    [reflexivity|].
  intros sentence _. now rewrite E.
Qed.

(* ===================================================================== *)
(** ** More tags, larger bounds *)
(* ===================================================================== *)

Lemma append_assoc (s t u : string) :
  ((s ++ t) ++ u)%string = (s ++ t ++ u)%string.
Proof. induction s as [|c s IH]; simpl; [reflexivity|]. now rewrite IH. Qed.

Lemma includes_extended (s t keyword : string) :
  includes s keyword = true -> includes (s ++ t) keyword = true.
Proof.
  rewrite !includes_substring. intros [pre [post ->]].
  exists pre, (post ++ t)%string. now rewrite !append_assoc.
Qed.

Lemma join_snoc (tags : list string) (tag : string) :
  exists suffix, join " " (tags ++ [tag]) = (join " " tags ++ suffix)%string.
Proof.
  induction tags as [|x tags [suffix IH]].
  - exists tag. reflexivity.
  - change ((x :: tags) ++ [tag])%list with (x :: (tags ++ [tag]))%list.
    rewrite (join_cons " " x (tags ++ [tag])) by (now destruct tags).
    destruct tags as [|y tags].
    + exists (" " ++ tag)%string. reflexivity.
    + rewrite (join_cons " " x (y :: tags)) by discriminate.
      exists suffix. rewrite IH. now rewrite !append_assoc.
Qed.

Lemma filter_length_mono {A : Type} (p q : A -> bool) (l : list A) :
  (forall x, p x = true -> q x = true) ->
  length (filter p l) <= length (filter q l).
Proof.
  intros H. induction l as [|x l IH]; simpl; [lia|].
  destruct (p x) eqn:E.
  - rewrite (H x E). simpl. lia.
  - destruct (q x); simpl; lia.
Qed.

(** X20: one more tag never lowers a score of the Category Suggester: for every
    keyword list, the number of keywords found in the text of the
    description and the tags does not decrease when a tag is added at the
    end. *)
Theorem keyword_score_more_tags (description : string) (tags : list string)
        (tag : string) (keywords : list string) :
  (keyword_score (toLowerCase (description ++ " " ++ join " " tags)) keywords
   <= keyword_score (toLowerCase (description ++ " " ++ join " " (tags ++ [tag])))
                    keywords)%Z.
Proof.
  destruct (join_snoc tags tag) as [suffix ->].
  rewrite !keyword_score_count. apply inj_le. unfold score.
  apply filter_length_mono. intros keyword H.
  replace (description ++ " " ++ join " " tags ++ suffix)%string
    with ((description ++ " " ++ join " " tags) ++ suffix)%string
    by (now rewrite !append_assoc).
  unfold toLowerCase. rewrite map_chars_app.
  now apply includes_extended.
Qed.

(** X21: raising [maxPhrases] only appends phrases: the result of the Key-Phrase
    Extractor for a smaller non-negative bound is a prefix of the result
    for a larger one. *)
Theorem extractKeyPhrases_prefix (stopwords : list string) (description : value)
        (maxPhrases maxPhrases' : Z) :
  (0 <= maxPhrases <= maxPhrases')%Z ->
  exists phrases more,
    extractKeyPhrases stopwords description maxPhrases = Fulfilled phrases
    /\ extractKeyPhrases stopwords description maxPhrases'
       = Fulfilled (phrases ++ more).
Proof.
  intros H. unfold extractKeyPhrases.
  destruct description as [ | |b|n| |text|name| |elems];
    try (exists [], []; split; reflexivity).
  rewrite !extractKeyPhrases_body_string. cbn [async_try_catch].
  unfold top_keys.
  match goal with
  | |- context [slice0 ?arr maxPhrases'] =>
      destruct (slice0_prefix arr maxPhrases maxPhrases' H) as [more ->]
  end.
  rewrite map_app. eauto.
Qed.

Lemma extractKeyPhrases_prefix_witness :
  exists phrases more,
    extractKeyPhrases Natural.stopwords
      (VStr "Morning yoga routine. Morning yoga routine for beginners!") 1
    = Fulfilled phrases
    /\ extractKeyPhrases Natural.stopwords
         (VStr "Morning yoga routine. Morning yoga routine for beginners!") 5
       = Fulfilled (phrases ++ more).
Proof.
  apply (extractKeyPhrases_prefix Natural.stopwords
           (VStr "Morning yoga routine. Morning yoga routine for beginners!") 1 5).
  lia.
Defined.
